(** * FinanceCalculator: the financial calculation engine

    A shallow embedding of [mortgage-calculations.ts] and
    [credit-calculations.ts], and the properties of the engine stated in the
    specification.

    Numbers.  A JavaScript [number] is modelled by an exact rational in
    canonical form ([Qc]) and the operations of the engine by the exact
    operations.  The source computes in IEEE 754 binary64, where every
    operation rounds its result: the two agree up to that rounding, which
    shows where the source compares with a threshold or rounds a value
    that ends in half a cent.  A statement about [number] that turns on
    such a comparison leaves [slack] on either side of the threshold, and
    an identity between separately rounded results is stated within
    [slack].  Module [Binary64] has the rounding itself, and with it the
    functions whose properties depend on it.  The non-finite value [Infinity]
    appears only as the explicit sentinel of [calculatePayoffTime] and is
    modelled there by [xnumber].  Division by zero (which gives [Infinity]
    or [NaN] in JavaScript and [0] in [Qc]) is outside the model: a theorem
    about the value of a division by an input carries the hypothesis that
    keeps the divisor nonzero.

    Integers.  [loanTermYears] is an integer number of years ([Z]).  The
    loop of [generatePaymentSchedule] takes the count of its iterations
    ([nat]); [monthsBelow] gives that count for a [maxMonths] that is any
    number. *)

From Stdlib Require Import ZArith QArith Qcanon Qround Qpower Lqa Lia.
From Stdlib Require Floats.
From Stdlib Require Import List String Bool Permutation Sorted.
Import ListNotations.

Open Scope Qc_scope.

(* ================================================================= *)
(** ** JavaScript numbers and the [Math] functions the engine uses *)

Module Js.

Abbreviation number := Qc.

(** An integer literal, and a decimal literal [n/d]. *)
Definition ofZ (z : Z) : number := Q2Qc (inject_Z z).
Definition dec (n : Z) (d : positive) : number := Q2Qc (n # d).

(** [Math.round]: the nearest integer, ties towards positive infinity. *)
Definition Math_round (x : number) : number :=
  ofZ (Qfloor (this x + (1 # 2))).

Definition Math_min (a b : number) : number :=
  if Qclt_le_dec b a then b else a.

Definition Math_max (a b : number) : number :=
  if Qclt_le_dec a b then b else a.

(** [Math.pow] at an integer exponent. *)
Definition Math_pow (b : number) (e : Z) : number :=
  match e with
  | Z0 => 1
  | Zpos p => Qcpower b (Pos.to_nat p)
  | Zneg p => / Qcpower b (Pos.to_nat p)
  end.

(** A number that may be [Infinity]. *)
Inductive xnumber : Type :=
| Finite (x : number)
| Infinity.

(** [Array.prototype.sort] with a comparator: a stable sort that puts [a]
    before [b] unless [compareFn a b > 0]. *)
Section Sort.
Context {A : Type} (compareFn : A -> A -> number).

Fixpoint sort_insert (x : A) (l : list A) : list A :=
  match l with
  | [] => [x]
  | y :: l' =>
      if Qclt_le_dec 0 (compareFn x y)
      then y :: sort_insert x l'
      else x :: y :: l'
  end.

Definition sort (l : list A) : list A := fold_right sort_insert [] l.
End Sort.

(** [Date]: the calendar day of a local date (the engine only reads
    [getFullYear], [getMonth] and [getDate]). *)
Record Date : Type := mkDate {
  getFullYear : Z;
  getMonth : Z;      (* 0 .. 11 *)
  getDate : Z        (* 1 .. 31 *)
}.

Definition isLeapYear (y : Z) : bool :=
  ((y mod 4 =? 0) && negb (y mod 100 =? 0) || (y mod 400 =? 0))%Z%bool.

Definition daysInMonth (y m : Z) : Z :=
  (if m =? 1 then (if isLeapYear y then 29 else 28)
   else if (m =? 3) || (m =? 5) || (m =? 8) || (m =? 10) then 30
   else 31)%Z%bool.

(** [new Date(year, monthIndex, day)] for [day] in 1..31: a year from 0 to
    99 stands for 1900 + year, the month index overflows into the year and
    the day into the following month. *)
Definition newDate (year monthIndex day : Z) : Date :=
  let year := (if (0 <=? year) && (year <=? 99) then 1900 + year else year)%Z in
  let y := (year + monthIndex / 12)%Z in
  let m := (monthIndex mod 12)%Z in
  let dim := daysInMonth y m in
  if (day <=? dim)%Z then mkDate y m day
  else if (m =? 11)%Z then mkDate (y + 1) 0 (day - dim)
  else mkDate y (m + 1) (day - dim).

End Js.

Import Js.

(* ================================================================= *)
(** ** Mortgage calculation utilities *)

Module Mortgage.

Record MortgageInputs : Type := mkMortgageInputs {
  loanAmount : number;
  downPayment : number;
  interestRate : number;
  loanTermYears : Z;
  propertyTax : number;
  homeInsurance : number;
  pmiRate : option number
}.

Record MortgageResults : Type := mkMortgageResults {
  monthlyPayment : number;
  principal : number;
  interest : number;
  monthlyTax : number;
  monthlyInsurance : number;
  monthlyPMI : number;
  totalMonthlyPayment : number;
  totalInterest : number;
  totalCost : number
}.


Definition calculateMonthlyPayment
    (principal annualInterestRate : number) (loanTermYears : Z) : number :=
  if Qc_eq_dec annualInterestRate 0 then
    Math_round ((principal / (ofZ loanTermYears * ofZ 12)) * ofZ 100) / ofZ 100
  else
    let monthlyRate := annualInterestRate / ofZ 100 / ofZ 12 in
    let numberOfPayments := (loanTermYears * 12)%Z in
    let monthlyPayment :=
      principal *
      (monthlyRate * Math_pow (1 + monthlyRate) numberOfPayments) /
      (Math_pow (1 + monthlyRate) numberOfPayments - 1) in
    Math_round (monthlyPayment * ofZ 100) / ofZ 100.

Definition calculatePMI (loanAmount pmiRate : number) : number :=
  Math_round ((loanAmount * (pmiRate / ofZ 100) / ofZ 12) * ofZ 100) / ofZ 100.

Definition calculateMonthlyPropertyTax (annualPropertyTax : number) : number :=
  Math_round ((annualPropertyTax / ofZ 12) * ofZ 100) / ofZ 100.

Definition calculateMonthlyInsurance (annualInsurance : number) : number :=
  Math_round ((annualInsurance / ofZ 12) * ofZ 100) / ofZ 100.

Definition calculateTotalInterest
    (monthlyPayment : number) (loanTermYears : Z) (principal : number) : number :=
  let totalPayments := monthlyPayment * ofZ loanTermYears * ofZ 12 in
  Math_round ((totalPayments - principal) * ofZ 100) / ofZ 100.

Definition calculateMortgage (inputs : MortgageInputs) : MortgageResults :=
  let loanAmount := loanAmount inputs in
  let downPayment := downPayment inputs in
  let interestRate := interestRate inputs in
  let loanTermYears := loanTermYears inputs in
  let propertyTax := propertyTax inputs in
  let homeInsurance := homeInsurance inputs in
  let pmiRate := match pmiRate inputs with Some p => p | None => 0 end in
  let actualLoanAmount := loanAmount - downPayment in
  let monthlyPayment :=
    calculateMonthlyPayment actualLoanAmount interestRate loanTermYears in
  let monthlyTax := calculateMonthlyPropertyTax propertyTax in
  let monthlyInsurance := calculateMonthlyInsurance homeInsurance in
  let downPaymentPercent := (downPayment / loanAmount) * ofZ 100 in
  let monthlyPMI :=
    if Qclt_le_dec downPaymentPercent (ofZ 20)
    then calculatePMI actualLoanAmount pmiRate else 0 in
  let totalMonthlyPayment :=
    monthlyPayment + monthlyTax + monthlyInsurance + monthlyPMI in
  let totalInterest :=
    calculateTotalInterest monthlyPayment loanTermYears actualLoanAmount in
  let totalCost :=
    actualLoanAmount + totalInterest +
    (monthlyTax + monthlyInsurance) * ofZ loanTermYears * ofZ 12 in
  {| monthlyPayment := monthlyPayment;
     principal := actualLoanAmount;
     interest := totalInterest;
     monthlyTax := monthlyTax;
     monthlyInsurance := monthlyInsurance;
     monthlyPMI := monthlyPMI;
     totalMonthlyPayment := totalMonthlyPayment;
     totalInterest := totalInterest;
     totalCost := totalCost |}.



Definition calculateAffordableHousePrice
    (monthlyBudget downPaymentPercent interestRate : number)
    (loanTermYears : Z) (monthlyTaxInsurance : number) : number :=
  let availableForPrincipalInterest := monthlyBudget - monthlyTaxInsurance in
  if Qclt_le_dec 0 availableForPrincipalInterest then
    let monthlyRate := interestRate / ofZ 100 / ofZ 12 in
    let numberOfPayments := (loanTermYears * 12)%Z in
    if Qc_eq_dec monthlyRate 0 then
      let maxLoanAmount := availableForPrincipalInterest * ofZ numberOfPayments in
      maxLoanAmount / (1 - downPaymentPercent / ofZ 100)
    else
      let maxLoanAmount :=
        availableForPrincipalInterest *
        (Math_pow (1 + monthlyRate) numberOfPayments - 1) /
        (monthlyRate * Math_pow (1 + monthlyRate) numberOfPayments) in
      let maxHousePrice := maxLoanAmount / (1 - downPaymentPercent / ofZ 100) in
      Math_round (maxHousePrice * ofZ 100) / ofZ 100
  else 0.

End Mortgage.

(* ================================================================= *)
(** ** Credit card calculation utilities *)

Module Credit.

Record PaymentRecord : Type := mkPaymentRecord {
  date : Date;
  amount : number;
  interestCharged : number;
  principalPaid : number;
  remainingBalance : number
}.

(** The fields of [CreditCard] the engine reads. *)
Record CreditCard : Type := mkCreditCard {
  id : string;
  balance : number;
  creditLimit : number;
  minimumPayment : number;
  interestRate : number
}.

Record PayoffResult : Type := mkPayoffResult {
  months : xnumber;
  totalInterest : xnumber;
  totalPaid : xnumber
}.

Record PaymentAllocation : Type := mkPaymentAllocation {
  cardId : string;
  payment : number
}.

Definition calculateMonthlyInterest (balance annualInterestRate : number) : number :=
  let monthlyRate := annualInterestRate / ofZ 100 / ofZ 12 in
  Math_round (balance * monthlyRate * ofZ 100) / ofZ 100.

Definition calculateMinimumPayment
    (balance minimumPercent minimumAmount : number) : number :=
  let percentagePayment := balance * (minimumPercent / ofZ 100) in
  Math_round (Math_max percentagePayment minimumAmount * ofZ 100) / ofZ 100.

(** The state of the [while] loop of [calculatePayoffTime]. *)
Record PayoffState : Type := mkPayoffState {
  currentBalance : number;
  loopMonths : Z;
  loopInterest : number
}.

(** The loop guard [currentBalance > 0.01 && months < 600]. *)
Definition payoffGuard (s : PayoffState) : bool :=
  (if Qclt_le_dec (dec 1 100) (currentBalance s) then true else false)
  && (loopMonths s <? 600)%Z.

(** The [while] loop; [fuel] bounds the number of iterations, and the
    guard itself stops the loop after 600 of them. *)
Fixpoint payoffLoop (monthlyRate monthlyPayment : number)
    (fuel : nat) (s : PayoffState) : PayoffState :=
  match fuel with
  | O => s
  | S fuel' =>
      if payoffGuard s then
        let interestCharge := currentBalance s * monthlyRate in
        let principalPayment :=
          Math_min (monthlyPayment - interestCharge) (currentBalance s) in
        let s' := {| currentBalance := currentBalance s - principalPayment;
                     loopMonths := (loopMonths s + 1)%Z;
                     loopInterest := loopInterest s + interestCharge |} in
        if Qclt_le_dec 0 principalPayment
        then payoffLoop monthlyRate monthlyPayment fuel' s'
        else s'                                   (* safety check: break *)
      else s
  end.

Definition calculatePayoffTime
    (balance annualInterestRate monthlyPayment : number) : PayoffResult :=
  if Qclt_le_dec 0 monthlyPayment then
    if Qclt_le_dec 0 balance then
      let monthlyRate := annualInterestRate / ofZ 100 / ofZ 12 in
      let minimumInterest := calculateMonthlyInterest balance annualInterestRate in
      if Qclt_le_dec minimumInterest monthlyPayment then
        let s := payoffLoop monthlyRate monthlyPayment 600
                   {| currentBalance := balance;
                      loopMonths := 0;
                      loopInterest := 0 |} in
        {| months := Finite (ofZ (loopMonths s));
           totalInterest :=
             Finite (Math_round (loopInterest s * ofZ 100) / ofZ 100);
           totalPaid :=
             Finite (Math_round ((balance + loopInterest s) * ofZ 100) / ofZ 100) |}
      else
        {| months := Infinity; totalInterest := Infinity; totalPaid := Infinity |}
    else
      {| months := Finite 0; totalInterest := Finite 0; totalPaid := Finite 0 |}
  else
    {| months := Finite 0; totalInterest := Finite 0; totalPaid := Finite 0 |}.

(** The [for] loop of [generatePaymentSchedule]: [count] is what is left of
    [maxMonths]; [currentDate] starts at the current time of the call. *)
Fixpoint scheduleLoop (monthlyRate monthlyPayment : number)
    (count : nat) (currentBalance : number) (currentDate : Date)
    : list PaymentRecord :=
  match count with
  | O => []
  | S count' =>
      if Qclt_le_dec (dec 1 100) currentBalance then
        let interestCharged := currentBalance * monthlyRate in
        let principalPaid :=
          Math_min (monthlyPayment - interestCharged) currentBalance in
        if Qclt_le_dec 0 principalPaid then
          let currentBalance := currentBalance - principalPaid in
          let currentDate :=
            newDate (getFullYear currentDate) (getMonth currentDate + 1)
                    (getDate currentDate) in
          {| date := currentDate;
             amount := monthlyPayment;
             interestCharged := Math_round (interestCharged * ofZ 100) / ofZ 100;
             principalPaid := Math_round (principalPaid * ofZ 100) / ofZ 100;
             remainingBalance := Math_round (currentBalance * ofZ 100) / ofZ 100 |}
          :: scheduleLoop monthlyRate monthlyPayment count'
               currentBalance currentDate
        else []                                   (* break *)
      else []
  end.

(** [now] is the value of [new Date()] at the call: the one input of the
    function that is not an argument. *)
Definition generatePaymentSchedule (now : Date)
    (balance annualInterestRate monthlyPayment : number) (maxMonths : nat)
    : list PaymentRecord :=
  let monthlyRate := annualInterestRate / ofZ 100 / ofZ 12 in
  scheduleLoop monthlyRate monthlyPayment maxMonths balance now.

(** [maxMonths] is a number like any other: the test [month < maxMonths]
    of the [for] loop lets the counters 0, 1, ... below it through, none
    for a [maxMonths] that is not positive and [n] for a whole number [n]. *)
Definition monthsBelow (maxMonths : number) : nat :=
  Z.to_nat (Qceiling (this maxMonths)).

Definition calculateCreditUtilization (balance creditLimit : number) : number :=
  if Qclt_le_dec 0 creditLimit
  then Math_round ((balance / creditLimit) * ofZ 100 * ofZ 100) / ofZ 100
  else 0.

Definition calculateTotalCreditUtilization (cards : list CreditCard) : number :=
  let totalBalance := fold_left (fun sum card => sum + balance card) cards 0 in
  let totalLimit := fold_left (fun sum card => sum + creditLimit card) cards 0 in
  calculateCreditUtilization totalBalance totalLimit.

Definition calculateDebtAvalanche (cards : list CreditCard) : list CreditCard :=
  sort (fun a b => interestRate b - interestRate a) cards.

Definition calculateDebtSnowball (cards : list CreditCard) : list CreditCard :=
  sort (fun a b => balance a - balance b) cards.

Inductive Strategy : Type := avalanche | snowball.

(** First phase: the minimum payments, in priority order.  Returns the
    allocations and the budget that is left. *)
Fixpoint allocateMinimums (sortedCards : list CreditCard)
    (remainingBudget : number) : list PaymentAllocation * number :=
  match sortedCards with
  | [] => ([], remainingBudget)
  | card :: rest =>
      let minPayment :=
        Math_min (Math_min (minimumPayment card) remainingBudget) (balance card) in
      let '(payments, remainingBudget') :=
        allocateMinimums rest (remainingBudget - minPayment) in
      ({| cardId := id card; payment := minPayment |} :: payments,
       remainingBudget')
  end.

(** [payments.find(p => p.cardId === cardId)] followed by the in-place
    update [p.payment += f(p)] of the element found. *)
Fixpoint addToFirst (cardId' : string) (f : PaymentAllocation -> number)
    (payments : list PaymentAllocation) : list PaymentAllocation :=
  match payments with
  | [] => []
  | p :: rest =>
      if String.eqb (cardId p) cardId'
      then {| cardId := cardId p; payment := payment p + f p |} :: rest
      else p :: addToFirst cardId' f rest
  end.

Definition calculateOptimalPaymentDistribution
    (cards : list CreditCard) (totalPaymentBudget : number)
    (strategy : Strategy) : list PaymentAllocation :=
  let sortedCards :=
    match strategy with
    | avalanche => calculateDebtAvalanche cards
    | snowball => calculateDebtSnowball cards
    end in
  let '(payments, remainingBudget) :=
    allocateMinimums sortedCards totalPaymentBudget in
  match sortedCards with
  | priorityCard :: _ =>
      if Qclt_le_dec 0 remainingBudget then
        addToFirst (id priorityCard)
          (fun priorityPayment =>
             Math_min remainingBudget
               (balance priorityCard - payment priorityPayment))
          payments
      else payments
  | [] => payments
  end.

End Credit.

(* ================================================================= *)
(** ** Notions of the specification *)

Module Spec.

Import Mortgage Credit.

(** "Rounded to cents": the nearest multiple of 0.01, halves upwards. *)
Definition toCents (x : number) : number :=
  Math_round (x * ofZ 100) / ofZ 100.


(** The annuity factor [1 + (1+r) + ... + (1+r)^(n-1)]: the value, after
    [n] periods, of one unit paid in every period. *)
Fixpoint compound (r : number) (n : nat) : number :=
  match n with
  | O => 0
  | S n' => compound r n' * (1 + r) + 1
  end.

Fixpoint sum (l : list number) : number :=
  match l with
  | [] => 0
  | x :: l' => x + sum l'
  end.

(** A sequence of numbers that never increases from one entry to the next. *)
Fixpoint nonIncreasing (l : list number) : Prop :=
  match l with
  | [] => True
  | x :: l' =>
      match l' with
      | [] => True
      | y :: _ => y <= x /\ nonIncreasing l'
      end
  end.

(** The distance between two numbers. *)
Definition absDiff (x y : number) : number :=
  if Qclt_le_dec x y then y - x else x - y.

(** One millionth: what a bound stated here leaves to the rounding of the
    binary64 operations of the source, which [number] computes exactly. *)
Definition slack : number := dec 1 1000000.

(** What a [PaymentRecord] holds besides its date. *)
Definition amounts (p : PaymentRecord) : number * number * number * number :=
  (amount p, interestCharged p, principalPaid p, Credit.remainingBalance p).

(** The day one month after [d], as [new Date(y, m + 1, d)] gives it. *)
Definition nextMonth (d : Date) : Date :=
  newDate (getFullYear d) (getMonth d + 1) (getDate d).

(** The [count] dates that follow [d], one month apart. *)
Fixpoint monthlyDates (count : nat) (d : Date) : list Date :=
  match count with
  | O => []
  | S count' => nextMonth d :: monthlyDates count' (nextMonth d)
  end.

(** The cards in the priority order of a strategy. *)
Definition priorityOrder (strategy : Strategy) (cards : list CreditCard)
    : list CreditCard :=
  match strategy with
  | avalanche => calculateDebtAvalanche cards
  | snowball => calculateDebtSnowball cards
  end.

(** [first] has priority over [c]: the higher rate under avalanche, the
    lower balance under snowball. *)
Definition hasPriority (strategy : Strategy) (first c : CreditCard) : Prop :=
  match strategy with
  | avalanche => Credit.interestRate c <= Credit.interestRate first
  | snowball => balance first <= balance c
  end.

(** An allocation for a card: it names the card and pays between 0 and
    the card's balance. *)
Definition allocationFor (c : CreditCard) (p : PaymentAllocation) : Prop :=
  cardId p = id c /\ 0 <= payment p /\ payment p <= balance c.



(** The PMI rate of the inputs, 0 when absent. *)
Definition pmiRateOrDefault (inputs : MortgageInputs) : number :=
  match pmiRate inputs with Some p => p | None => 0 end.

End Spec.

(* ================================================================= *)
(** ** The loops seen through their accumulators *)

Module Analysis.

Import Mortgage Credit Spec.

(** The monthly payment of [calculateMonthlyPayment] before it is rounded
    to cents. *)
Definition unroundedPayment (P rate : number) (termYears : Z) : number :=
  if Qc_eq_dec rate 0 then P / (ofZ termYears * ofZ 12)
  else
    let r := rate / ofZ 100 / ofZ 12 in
    P * (r * Math_pow (1 + r) (termYears * 12))
    / (Math_pow (1 + r) (termYears * 12) - 1).









(** The head of a list has the least key of the list. *)
Definition headLeast {A : Type} (key : A -> number) (l : list A) : Prop :=
  match l with
  | [] => True
  | first :: _ => Forall (fun c => key first <= key c) l
  end.

End Analysis.

(* ================================================================= *)
(** ** Sample inputs *)

Module Samples.

Import Mortgage Credit.

(** The two cards of the test suite. *)
Definition sampleCards : list CreditCard :=
  [ mkCreditCard "1" (ofZ 2000) (ofZ 5000) (ofZ 50) (ofZ 12);
    mkCreditCard "2" (ofZ 3000) (ofZ 8000) (ofZ 75) (ofZ 20) ].

(** A price of 10 with nothing down, PMI at 0.5%. *)
Definition tinyLoan : MortgageInputs :=
  mkMortgageInputs (ofZ 10) 0 (dec 45 10) 30 0 0 (Some (dec 5 10)).

End Samples.

(* ================================================================= *)
(** ** credit-calculations.ts: interest savings *)

Module Savings.

Import Credit.






End Savings.

(* ================================================================= *)
(** ** Notions used to state further properties *)

Module Notions.

Import Mortgage Credit Spec.

(** A whole number of cents. *)
Definition wholeCents (x : number) : Prop :=
  exists k : Z, x = ofZ k / ofZ 100.

(** The elements of [l] with key [k], in the order of [l]. *)
Definition withKey {A : Type} (key : A -> number) (k : number) (l : list A)
    : list A :=
  filter (fun a => if Qc_eq_dec (key a) k then true else false) l.


End Notions.

(* ================================================================= *)
(** ** The expense store: the actions that call the credit engine *)

Module ExpenseStore.

Import Credit.

(** A card as the store keeps it: the fields the engine reads, and the
    rest of [CreditCard]. *)
Record StoredCard : Type := mkStoredCard {
  card : CreditCard;
  name : string;
  dueDate : Date;
  monthlyInterest : option number;
  totalInterestPaid : option number;
  paymentHistory : list PaymentRecord
}.

(** [date.setMonth(monthIndex)]: the month index overflows into the year
    and the day of the month into the following month. *)
Definition setMonth (d : Date) (monthIndex : Z) : Date :=
  let y := (getFullYear d + monthIndex / 12)%Z in
  let m := (monthIndex mod 12)%Z in
  let dim := daysInMonth y m in
  if (getDate d <=? dim)%Z then mkDate y m (getDate d)
  else if (m =? 11)%Z then mkDate (y + 1) 0 (getDate d - dim)
  else mkDate y (m + 1) (getDate d - dim).

(** [creditCards.find(c => c.id === cardId)]. *)
Definition findCard (creditCards : list StoredCard) (cardId : string)
    : option StoredCard :=
  find (fun c => String.eqb (id (card c)) cardId) creditCards.

(** The in-place update of the card found: the first one with the id. *)
Fixpoint updateFirst (cardId : string) (updated : StoredCard)
    (creditCards : list StoredCard) : list StoredCard :=
  match creditCards with
  | [] => []
  | c :: rest =>
      if String.eqb (id (card c)) cardId then updated :: rest
      else c :: updateFirst cardId updated rest
  end.

(** [makePayment]: the value returned and the cards afterwards.  [now] is
    the date of the call.  (The call to [saveExpenseData], which writes the
    cards to storage, is left out.) *)
Definition makePayment (now : Date) (creditCards : list StoredCard)
    (cardId : string) (amount : number) : bool * list StoredCard :=
  match findCard creditCards cardId with
  | None => (false, creditCards)
  | Some c =>
      if Qclt_le_dec 0 amount then
        let interestCharged :=
          calculateMonthlyInterest (balance (card c)) (interestRate (card c)) in
        let principalPaid :=
          Math_min (amount - interestCharged) (balance (card c)) in
        if Qclt_le_dec 0 principalPaid then
          let newBalance := Math_max 0 (balance (card c) - principalPaid) in
          let updated :=
            {| card := mkCreditCard (id (card c)) newBalance
                         (creditLimit (card c)) (minimumPayment (card c))
                         (interestRate (card c));
               name := name c;
               dueDate := setMonth (dueDate c) (getMonth (dueDate c) + 1);
               monthlyInterest := monthlyInterest c;
               totalInterestPaid :=
                 Some (match totalInterestPaid c with
                       | Some t => t
                       | None => 0
                       end + interestCharged);
               paymentHistory :=
                 mkPaymentRecord now amount interestCharged principalPaid
                   newBalance
                 :: paymentHistory c |} in
          (true, updateFirst cardId updated creditCards)
        else (false, creditCards)
      else (false, creditCards)
  end.

End ExpenseStore.

(* ================================================================= *)
(** ** validation.ts: the mortgage inputs *)

Module Validation.

Import Mortgage.

Record ValidationError : Type := mkValidationError {
  field : string;
  message : string
}.

Record FormValidation : Type := mkFormValidation {
  isValid : bool;
  errors : list ValidationError
}.

(** [Partial<MortgageInputs>]: every field may be absent. *)
Record PartialMortgageInputs : Type := mkPartialMortgageInputs {
  loanAmount' : option number;
  downPayment' : option number;
  interestRate' : option number;
  loanTermYears' : option Z;
  propertyTax' : option number;
  homeInsurance' : option number;
  pmiRate' : option number
}.

Definition asPartial (inputs : MortgageInputs) : PartialMortgageInputs :=
  {| loanAmount' := Some (loanAmount inputs);
     downPayment' := Some (downPayment inputs);
     interestRate' := Some (interestRate inputs);
     loanTermYears' := Some (loanTermYears inputs);
     propertyTax' := Some (propertyTax inputs);
     homeInsurance' := Some (homeInsurance inputs);
     pmiRate' := pmiRate inputs |}.

(** [!x || x < min || x > max] for a required field: absent, zero or out
    of range. *)
Definition requiredOutside (x : option number) (min max : number) : bool :=
  match x with
  | None => true
  | Some v =>
      (if Qc_eq_dec v 0 then true else false)
      || (if Qclt_le_dec v min then true else false)
      || (if Qclt_le_dec max v then true else false)
  end.

(** [x !== undefined && (x < min || x > max)] for an optional field. *)
Definition optionalOutside (x : option number) (min max : number) : bool :=
  match x with
  | None => false
  | Some v =>
      (if Qclt_le_dec v min then true else false)
      || (if Qclt_le_dec max v then true else false)
  end.

Definition pushIf (bad : bool) (e : ValidationError) : list ValidationError :=
  if bad then [e] else [].

Section Locale.

(** [n.toLocaleString()] of the host, on the integer bounds of the rules. *)
Variable toLocaleString : Z -> string.

Definition validateMortgageInputs (inputs : PartialMortgageInputs)
    : FormValidation :=
  let errors :=
    pushIf (requiredOutside (loanAmount' inputs) (ofZ 1000) (ofZ 10000000))
      (mkValidationError "loanAmount"
         ("Loan amount must be between $" ++ toLocaleString 1000
          ++ " and $" ++ toLocaleString 10000000))
    ++ pushIf (optionalOutside (downPayment' inputs) 0 (ofZ 5000000))
      (mkValidationError "downPayment"
         ("Down payment must be between $" ++ toLocaleString 0
          ++ " and $" ++ toLocaleString 5000000))
    ++ pushIf (requiredOutside (interestRate' inputs) (dec 1 100) (ofZ 30))
      (mkValidationError "interestRate"
         "Interest rate must be between 0.01% and 30%")
    ++ pushIf (requiredOutside
                 (option_map ofZ (loanTermYears' inputs)) (ofZ 1) (ofZ 50))
      (mkValidationError "loanTermYears"
         "Loan term must be between 1 and 50 years")
    ++ pushIf (optionalOutside (propertyTax' inputs) 0 (ofZ 100000))
      (mkValidationError "propertyTax"
         ("Property tax must be between $" ++ toLocaleString 0
          ++ " and $" ++ toLocaleString 100000))
    ++ pushIf (optionalOutside (homeInsurance' inputs) 0 (ofZ 50000))
      (mkValidationError "homeInsurance"
         ("Home insurance must be between $" ++ toLocaleString 0
          ++ " and $" ++ toLocaleString 50000))
    ++ pushIf (optionalOutside (pmiRate' inputs) 0 (ofZ 5))
      (mkValidationError "pmiRate" "PMI rate must be between 0% and 5%") in
  {| isValid := (List.length errors =? 0)%nat; errors := errors |}.

End Locale.

End Validation.

(* ================================================================= *)
(** ** The mortgage store: its getters and [calculateResults] *)

Module MortgageStore.

Import Mortgage Validation.

Definition loanToValueRatio (currentInputs : MortgageInputs) : number :=
  if Qclt_le_dec 0 (loanAmount currentInputs)
  then (loanAmount currentInputs - downPayment currentInputs)
       / loanAmount currentInputs * ofZ 100
  else 0.

Definition downPaymentPercentage (currentInputs : MortgageInputs) : number :=
  if Qclt_le_dec 0 (loanAmount currentInputs)
  then downPayment currentInputs / loanAmount currentInputs * ofZ 100
  else 0.

Definition needsPMI (currentInputs : MortgageInputs) : bool :=
  if Qclt_le_dec (downPaymentPercentage currentInputs) (ofZ 20)
  then true else false.

Definition isValidInputs (toLocaleString : Z -> string)
    (currentInputs : MortgageInputs) : bool :=
  isValid (validateMortgageInputs toLocaleString (asPartial currentInputs)).

(** [calculateResults]: the value returned and [currentResults]
    afterwards. *)
Definition calculateResults (toLocaleString : Z -> string)
    (currentInputs : MortgageInputs) : bool * option MortgageResults :=
  if isValidInputs toLocaleString currentInputs
  then (true, Some (calculateMortgage currentInputs))
  else (false, None).

End MortgageStore.

(* ================================================================= *)
(** ** currency.ts: rounding and conversion *)

Module Currency.

Inductive Currency : Type := USD | EUR | GBP | CAD | AUD.

Definition Currency_eqb (a b : Currency) : bool :=
  match a, b with
  | USD, USD | EUR, EUR | GBP, GBP | CAD, CAD | AUD, AUD => true
  | _, _ => false
  end.

Definition roundCurrency (amount : number) (decimals : Z) : number :=
  Math_round (amount * Math_pow (ofZ 10) decimals)
  / Math_pow (ofZ 10) decimals.

(** The table of mock exchange rates, by its key [from-to]. *)
Definition mockExchangeRates (from to : Currency) : option number :=
  match from, to with
  | USD, EUR => Some (dec 85 100)
  | USD, GBP => Some (dec 73 100)
  | USD, CAD => Some (dec 125 100)
  | USD, AUD => Some (dec 135 100)
  | EUR, USD => Some (dec 118 100)
  | GBP, USD => Some (dec 137 100)
  | CAD, USD => Some (dec 80 100)
  | AUD, USD => Some (dec 74 100)
  | _, _ => None
  end.

(** [a || b] on numbers that may be absent: [a] unless it is absent or 0. *)
Definition orElse (a : option number) (b : number) : number :=
  match a with
  | Some v => if Qc_eq_dec v 0 then b else v
  | None => b
  end.

Definition convertCurrency (amount : number) (fromCurrency toCurrency : Currency)
    (exchangeRate : option number) : number :=
  if Currency_eqb fromCurrency toCurrency then amount
  else
    let rate :=
      orElse exchangeRate
        (orElse (mockExchangeRates fromCurrency toCurrency) 1) in
    roundCurrency (amount * rate) 2.

End Currency.

(* ================================================================= *)
(** ** Sample data of the stores *)

Module StoreSamples.

Import Mortgage Credit ExpenseStore Validation.

(** Two stored cards at 18%, due on 31 January 2024, no payment yet. *)
Definition amex : StoredCard :=
  mkStoredCard (mkCreditCard "amex" (ofZ 2000) (ofZ 8000) (ofZ 40) (ofZ 18))
    "Amex" (mkDate 2024 0 31) None None [].

Definition visa : StoredCard :=
  mkStoredCard (mkCreditCard "visa" (ofZ 1000) (ofZ 5000) (ofZ 25) (ofZ 18))
    "Visa" (mkDate 2024 0 31) None None [].

Definition wallet : list StoredCard := [amex; visa].

(** The inputs the mortgage store starts with. *)
Definition defaultInputs : MortgageInputs :=
  mkMortgageInputs (ofZ 300000) (ofZ 60000) (dec 45 10) 30
    (ofZ 6000) (ofZ 1200) (Some (dec 5 10)).

(** A host whose [toLocaleString] prints nothing. *)
Definition noLocale (n : Z) : string := "".

End StoreSamples.

(* ================================================================= *)
(** ** The arithmetic of the source: binary64 *)

(** The numbers of the source are IEEE 754 binary64 numbers and each of
    its operations rounds its exact result to the nearest of them.  This
    module has that rounding, on the rationals the numbers are, and the
    functions of the source whose properties turn on it.  (The exponent is not
    bounded: the rounding is that of the source as long as it neither
    overflows nor underflows.) *)

Module Binary64.

Import Credit.

(** The exponent [e] of a positive rational: [2^e <= q < 2^(e+1)]. *)
Definition exponent (q : Q) : Z :=
  let k := (Z.log2 (Qnum q) - Z.log2 (Zpos (Qden q)))%Z in
  if Qle_bool (2 ^ k) q then k else (k - 1)%Z.

(** The nearest integer, a half going to the even one. *)
Definition nearestEven (q : Q) : Z :=
  let f := Qfloor q in
  match (q - inject_Z f ?= 1 # 2)%Q with
  | Lt => f
  | Gt => (f + 1)%Z
  | Eq => if Z.even f then f else (f + 1)%Z
  end.

(** The nearest number with 53 significant bits to a positive rational. *)
Definition roundPositive (q : Q) : Q :=
  let e := (exponent q - 52)%Z in
  (inject_Z (nearestEven (q / 2 ^ e)) * 2 ^ e)%Q.

(** Rounding to binary64: to nearest, ties to even. *)
Definition fl (x : number) : number :=
  match (this x ?= 0)%Q with
  | Eq => 0
  | Gt => Q2Qc (roundPositive (this x))
  | Lt => - Q2Qc (roundPositive (- this x))
  end.

(** Half the gap between 1 and the next number, [2^-53]: the most a
    rounding changes a number, relative to it. *)
Definition unitRoundoff : number := dec 1 9007199254740992.

(** The operations [+], [-], [*] and [/] of the source, and its decimal
    literals. *)
Definition add (x y : number) : number := fl (x + y).
Definition sub (x y : number) : number := fl (x - y).
Definition mul (x y : number) : number := fl (x * y).
Definition div (x y : number) : number := fl (x / y).
Definition lit (n : Z) (d : positive) : number := fl (dec n d).

Definition calculateDebtAvalanche (cards : list CreditCard) : list CreditCard :=
  sort (fun a b => sub (interestRate b) (interestRate a)) cards.

Definition calculateDebtSnowball (cards : list CreditCard) : list CreditCard :=
  sort (fun a b => sub (balance a) (balance b)) cards.

Fixpoint allocateMinimums (sortedCards : list CreditCard)
    (remainingBudget : number) : list PaymentAllocation * number :=
  match sortedCards with
  | [] => ([], remainingBudget)
  | card :: rest =>
      let minPayment :=
        Math_min (Math_min (minimumPayment card) remainingBudget) (balance card) in
      let '(payments, remainingBudget') :=
        allocateMinimums rest (sub remainingBudget minPayment) in
      ({| cardId := id card; payment := minPayment |} :: payments,
       remainingBudget')
  end.

Fixpoint addToFirst (cardId' : string) (f : PaymentAllocation -> number)
    (payments : list PaymentAllocation) : list PaymentAllocation :=
  match payments with
  | [] => []
  | p :: rest =>
      if String.eqb (cardId p) cardId'
      then {| cardId := cardId p; payment := add (payment p) (f p) |} :: rest
      else p :: addToFirst cardId' f rest
  end.

Definition calculateOptimalPaymentDistribution
    (cards : list CreditCard) (totalPaymentBudget : number)
    (strategy : Strategy) : list PaymentAllocation :=
  let sortedCards :=
    match strategy with
    | avalanche => calculateDebtAvalanche cards
    | snowball => calculateDebtSnowball cards
    end in
  let '(payments, remainingBudget) :=
    allocateMinimums sortedCards totalPaymentBudget in
  match sortedCards with
  | priorityCard :: _ =>
      if Qclt_le_dec 0 remainingBudget then
        addToFirst (id priorityCard)
          (fun priorityPayment =>
             Math_min remainingBudget
               (sub (balance priorityCard) (payment priorityPayment)))
          payments
      else payments
  | [] => payments
  end.

(** A binary64 number of the kernel as the rational it is ([None] for an
    infinity or a NaN). *)
Definition toQ (f : PrimFloat.float) : option Q :=
  match FloatOps.Prim2SF f with
  | SpecFloat.S754_zero _ => Some 0%Q
  | SpecFloat.S754_finite s m e =>
      Some (Qred ((if s then -1 else 1) * inject_Z (Zpos m) * 2 ^ e))%Q
  | _ => None
  end.

(** One card with a balance of 831.12 and a minimum payment of 69.43. *)
Definition oneCard : list CreditCard :=
  [ mkCreditCard "1" (lit 83112 100) (ofZ 5000) (lit 6943 100) (ofZ 18) ].

End Binary64.

Import Mortgage Credit Spec Analysis Samples.

(* ================================================================= *)
(** ** Arithmetic of the number model *)

Section NumberFacts.

Lemma this_plus (x y : Qc) : (this (x + y) == this x + this y)%Q.
Proof. exact (Qred_correct _). Qed.

Lemma this_mult (x y : Qc) : (this (x * y) == this x * this y)%Q.
Proof. exact (Qred_correct _). Qed.

Lemma this_opp (x : Qc) : (this (- x) == - this x)%Q.
Proof. exact (Qred_correct _). Qed.

Lemma this_minus (x y : Qc) : (this (x - y) == this x - this y)%Q.
Proof. unfold Qcminus. rewrite this_plus, this_opp. reflexivity. Qed.

Lemma this_inv (x : Qc) : (this (/ x) == / this x)%Q.
Proof. exact (Qred_correct _). Qed.

Lemma this_div (x y : Qc) : (this (x / y) == this x / this y)%Q.
Proof. unfold Qcdiv. rewrite this_mult, this_inv. reflexivity. Qed.

Lemma this_Q2Qc (q : Q) : (this (Q2Qc q) == q)%Q.
Proof. apply Qred_correct. Qed.

Lemma this_div_pos (x : Qc) (p : positive) :
  (this (x / ofZ (Zpos p)) == this x * (1 # p))%Q.
Proof.
  unfold Qcdiv. rewrite this_mult, this_inv. unfold ofZ.
  rewrite this_Q2Qc. reflexivity.
Qed.

Lemma this_ofZ (z : Z) : (this (ofZ z) == inject_Z z)%Q.
Proof. apply Qred_correct. Qed.

Lemma this_dec n d : (this (dec n d) == n # d)%Q.
Proof. apply Qred_correct. Qed.

End NumberFacts.

(** Moves a goal about [Qc] to [Q], where [lra] and [nra] work. *)
Ltac to_Q :=
  unfold Qcle, Qclt in *;
  repeat match goal with
  | H : @eq Qc ?x ?y |- _ =>
      let H' := fresh H in
      assert (H' : (this x == this y)%Q) by (rewrite H; reflexivity); clear H
  | H : ?x <> ?y :> Qc |- _ =>
      let H' := fresh H in
      assert (H' : ~ (this x == this y)%Q)
        by (intro; apply H; apply Qc_is_canon; assumption); clear H
  | |- @eq Qc _ _ => apply Qc_is_canon
  | |- ?x <> ?y :> Qc =>
      let H' := fresh in intro H'
  end;
  repeat (rewrite ?this_plus, ?this_mult, ?this_opp, ?this_minus,
            ?this_div_pos, ?this_div, ?this_inv, ?this_ofZ, ?this_dec,
            ?this_Q2Qc in * );
  unfold inject_Z in *.

Ltac qlra := to_Q; lra.
Ltac qnra := to_Q; nra.

Section RoundFacts.

Lemma Math_round_bounds (x : number) :
  x - dec 1 2 < Math_round x /\ Math_round x <= x + dec 1 2.
Proof.
  unfold Math_round.
  pose proof (Qfloor_le (this x + (1 # 2))) as Hle.
  pose proof (Qlt_floor (this x + (1 # 2))) as Hlt.
  rewrite inject_Z_plus in Hlt.
  split; unfold Qcle, Qclt;
    rewrite ?this_minus, ?this_plus, ?this_ofZ, ?this_dec;
    change (inject_Z 1) with 1%Q in Hlt; lra.
Qed.

Lemma toCents_bounds (x : number) :
  x - dec 5 1000 < toCents x /\ toCents x <= x + dec 5 1000.
Proof.
  unfold toCents.
  destruct (Math_round_bounds (x * ofZ 100)) as [H1 H2].
  split; qlra.
Qed.

Lemma Math_round_mono (x y : number) : x <= y -> Math_round x <= Math_round y.
Proof.
  intros H. unfold Math_round, Qcle. rewrite !this_ofZ.
  rewrite <- Zle_Qle. apply Qfloor_resp_le. unfold Qcle in H. lra.
Qed.

Lemma toCents_mono (x y : number) : x <= y -> toCents x <= toCents y.
Proof.
  intros H. unfold toCents.
  assert (Hm : Math_round (x * ofZ 100) <= Math_round (y * ofZ 100)).
  { apply Math_round_mono. qlra. }
  qlra.
Qed.

Lemma Math_round_ofZ (z : Z) : Math_round (ofZ z) = ofZ z.
Proof.
  unfold Math_round. f_equal.
  apply Z.le_antisymm.
  - assert (H : (Qfloor (this (ofZ z) + (1 # 2)) < z + 1)%Z); [|lia].
    rewrite Zlt_Qlt. eapply Qle_lt_trans; [apply Qfloor_le|].
    rewrite this_ofZ, inject_Z_plus. change (inject_Z 1) with 1%Q. lra.
  - rewrite <- (Qfloor_Z z) at 1. apply Qfloor_resp_le.
    rewrite this_ofZ. lra.
Qed.

Lemma toCents_nonneg (x : number) : 0 <= x -> 0 <= toCents x.
Proof.
  intros H. unfold toCents.
  assert (Hm : Math_round 0 <= Math_round (x * ofZ 100)).
  { apply Math_round_mono. qlra. }
  change 0 with (ofZ 0) in Hm at 1. rewrite Math_round_ofZ in Hm.
  qlra.
Qed.

End RoundFacts.

(** Decides a closed comparison or equation of numbers by evaluation. *)
Ltac qc_eval :=
  lazymatch goal with
  | |- @eq Qc _ _ => apply Qc_is_canon; vm_compute; reflexivity
  | |- _ <> _ => let H := fresh in
                 intro H; apply (f_equal this) in H; vm_compute in H; discriminate
  | |- ~ _ => let H := fresh in intro H; vm_compute in H; auto; discriminate
  | |- _ => vm_compute;
            first [reflexivity | discriminate
                  | let H := fresh in intro H; discriminate H]
  end.

(* ================================================================= *)
(** ** The embedding on the cases of the test suite *)

Section TestSuite.

Example test_monthly_payment_short_term :
  calculateMonthlyPayment (ofZ 100000) (ofZ 5) 5 = dec 188712 100.
Proof. qc_eval. Qed.

Example test_PMI :
  calculatePMI (ofZ 250000) (dec 5 10) = dec 10417 100
  /\ calculatePMI (ofZ 250000) 0 = 0.
Proof. split; qc_eval. Qed.

Example test_tax_and_insurance :
  calculateMonthlyPropertyTax (ofZ 6000) = ofZ 500
  /\ calculateMonthlyInsurance (ofZ 1200) = ofZ 100.
Proof. split; qc_eval. Qed.

Example test_total_interest :
  calculateTotalInterest (dec 152006 100) 30 (ofZ 300000) = dec 2472216 10.
Proof. qc_eval. Qed.

Example test_affordable_budget_too_low :
  calculateAffordableHousePrice (ofZ 500) (ofZ 20) (dec 45 10) 30 (ofZ 600) = 0.
Proof. qc_eval. Qed.

Example test_monthly_interest :
  calculateMonthlyInterest (ofZ 1000) (ofZ 18) = ofZ 15
  /\ calculateMonthlyInterest 0 (ofZ 18) = 0
  /\ calculateMonthlyInterest (ofZ 1000) 0 = 0.
Proof. repeat split; qc_eval. Qed.

Example test_minimum_payment :
  calculateMinimumPayment (ofZ 1000) (ofZ 2) (ofZ 15) = ofZ 20
  /\ calculateMinimumPayment (ofZ 500) (ofZ 2) (ofZ 25) = ofZ 25.
Proof. split; qc_eval. Qed.

Example test_payoff_time :
  exists i p,
    calculatePayoffTime (ofZ 5000) (ofZ 18) (ofZ 200)
    = mkPayoffResult (Finite (ofZ 32)) (Finite i) (Finite p)
    /\ 0 < i /\ p = ofZ 5000 + i.
Proof.
  eexists _, _. split; [vm_compute; reflexivity|]. split; qc_eval.
Qed.

Example test_payoff_time_unreachable :
  months (calculatePayoffTime (ofZ 5000) (ofZ 18) (ofZ 50)) = Infinity.
Proof. reflexivity. Qed.

Example test_utilization :
  calculateCreditUtilization (ofZ 3000) (ofZ 10000) = ofZ 30
  /\ calculateCreditUtilization (ofZ 1000) 0 = 0
  /\ calculateCreditUtilization (ofZ 5000) (ofZ 5000) = ofZ 100
  /\ calculateTotalCreditUtilization
       [ mkCreditCard "1" (ofZ 2000) (ofZ 5000) (ofZ 50) (ofZ 18);
         mkCreditCard "2" (ofZ 1000) (ofZ 3000) (ofZ 30) (ofZ 15) ]
     = dec 375 10.
Proof. repeat split; qc_eval. Qed.

Example test_avalanche_order :
  map id (calculateDebtAvalanche sampleCards) = ["2"; "1"]%string
  /\ map id (calculateDebtSnowball sampleCards) = ["1"; "2"]%string.
Proof. split; reflexivity. Qed.

Example test_distribution :
  map (fun p => (cardId p, this (payment p)))
      (calculateOptimalPaymentDistribution sampleCards (ofZ 300) avalanche)
  = [("2"%string, inject_Z 250); ("1"%string, inject_Z 50)].
Proof. vm_compute. reflexivity. Qed.

Example test_distribution_insufficient_budget :
  map (fun p => (cardId p, this (payment p)))
      (calculateOptimalPaymentDistribution
         [mkCreditCard "1" (ofZ 1000) (ofZ 2000) (ofZ 100) (ofZ 15)]
         (ofZ 50) avalanche)
  = [("1"%string, inject_Z 50)].
Proof. vm_compute. reflexivity. Qed.

End TestSuite.

(* ================================================================= *)
(** ** The monthly payment formula *)

Section MonthlyPayment.

Lemma ofZ_mult (a b : Z) : ofZ (a * b) = ofZ a * ofZ b.
Proof.
  apply Qc_is_canon. rewrite this_mult, !this_ofZ, inject_Z_mult. reflexivity.
Qed.



End MonthlyPayment.

(* ================================================================= *)
(** ** Affordability *)

Section Affordability.

(** What [calculateAffordableHousePrice] returns on each of its paths. *)
Lemma calculateAffordableHousePrice_paths
    (budget dpPercent rate : number) (termYears : Z) (taxIns : number) :
  let available := budget - taxIns in
  let r := rate / ofZ 100 / ofZ 12 in
  let n := (termYears * 12)%Z in
  calculateAffordableHousePrice budget dpPercent rate termYears taxIns =
    if Qclt_le_dec 0 available then
      if Qc_eq_dec r 0
      then available * ofZ n / (1 - dpPercent / ofZ 100)
      else toCents (available * (Math_pow (1 + r) n - 1) / (r * Math_pow (1 + r) n)
                    / (1 - dpPercent / ofZ 100))
    else 0.
Proof. reflexivity. Qed.

(** C7.  At a zero rate the price comes back as computed, not rounded to
    cents: a budget of 1000 a month, 30% down, 30 years, no tax or
    insurance gives 3600000/7 = 514285.714285..., where the specification has
    514285.71. *)
Theorem calculateAffordableHousePrice_zero_rate_not_rounded :
  calculateAffordableHousePrice (ofZ 1000) (ofZ 30) 0 30 0 = dec 3600000 7
  /\ toCents (ofZ 1000 * ofZ (30 * 12) / (1 - ofZ 30 / ofZ 100)) = dec 51428571 100
  /\ calculateAffordableHousePrice (ofZ 1000) (ofZ 30) 0 30 0
     <> toCents (ofZ 1000 * ofZ (30 * 12) / (1 - ofZ 30 / ofZ 100)).
Proof. repeat split; qc_eval. Qed.

End Affordability.

(* ================================================================= *)
(** ** Private mortgage insurance *)

Section PMI.

Lemma toCents_pos_iff (x : number) : 0 < toCents x <-> dec 5 1000 <= x.
Proof.
  unfold toCents, Math_round.
  assert (Hy : (this (x * ofZ 100) == this x * 100)%Q).
  { rewrite this_mult, this_ofZ. reflexivity. }
  set (y := this (x * ofZ 100)) in *. clearbody y.
  set (k := Qfloor (y + (1 # 2))).
  assert (Hk : 0 < ofZ k / ofZ 100 <-> (1 <= k)%Z).
  { split; intros H.
    - assert (H' : (0 < k)%Z); [|lia].
      rewrite Zlt_Qlt. to_Q. lra.
    - assert (H' : (0 < k)%Z) by lia.
      rewrite Zlt_Qlt in H'. to_Q. lra. }
  rewrite Hk. subst k. split; intros H.
  - pose proof (Qfloor_le (y + (1 # 2))) as Hle.
    rewrite Zle_Qle in H. to_Q. lra.
  - apply (Z.le_trans _ (Qfloor (inject_Z 1))); [rewrite Qfloor_Z; lia|].
    apply Qfloor_resp_le. to_Q. lra.
Qed.

(** C6, as amended.  With a down payment of 20% of the price or more the
    monthly PMI is 0; below 20% it is [calculatePMI] of the financed amount,
    which is positive when the monthly premium before rounding is half a
    cent or more and 0 when it is between 0 and half a cent.  Each
    threshold is stated with [slack] on either side: the source compares
    and rounds doubles, and at a threshold itself (a down payment of
    exactly 20%, a premium of exactly half a cent) the quotient or the
    product can fall on either side of it. *)
Theorem calculateMortgage_PMI (inputs : MortgageInputs) :
  loanAmount inputs <> 0 ->
  let percent := downPayment inputs / loanAmount inputs * ofZ 100 in
  let financed := loanAmount inputs - downPayment inputs in
  let premium := financed * (pmiRateOrDefault inputs / ofZ 100) / ofZ 12 in
  (ofZ 20 + slack <= percent -> monthlyPMI (calculateMortgage inputs) = 0)
  /\ (percent <= ofZ 20 - slack ->
      monthlyPMI (calculateMortgage inputs)
      = calculatePMI financed (pmiRateOrDefault inputs))
  /\ (dec 5 1000 + slack <= premium ->
      0 < calculatePMI financed (pmiRateOrDefault inputs))
  /\ (0 <= premium -> premium <= dec 5 1000 - slack ->
      calculatePMI financed (pmiRateOrDefault inputs) = 0).
Proof.
  intros _ percent financed premium.
  unfold calculateMortgage; cbn [monthlyPMI].
  fold (pmiRateOrDefault inputs). fold percent. fold financed.
  assert (Hpmi : calculatePMI financed (pmiRateOrDefault inputs)
                 = toCents premium) by reflexivity.
  split; [|split; [|split]].
  - intros H. destruct (Qclt_le_dec percent (ofZ 20)) as [Hlt|Hge];
      [|reflexivity].
    exfalso. clearbody percent. unfold slack in H. qlra.
  - intros H. destruct (Qclt_le_dec percent (ofZ 20)) as [Hlt|Hge];
      [reflexivity|].
    exfalso. clearbody percent. unfold slack in H. qlra.
  - intros H. rewrite Hpmi. apply toCents_pos_iff.
    clearbody premium. unfold slack in H. qlra.
  - intros H0 H. rewrite Hpmi.
    assert (Hn : ~ 0 < toCents premium).
    { intros Hp. apply toCents_pos_iff in Hp.
      clearbody premium. unfold slack in H. qlra. }
    pose proof (toCents_nonneg premium H0) as Hnn.
    set (c := toCents premium) in *. clearbody c.
    destruct (Qclt_le_dec 0 c) as [Hc|Hc]; [contradiction|]. qlra.
Qed.

Lemma calculateMortgage_PMI_witness :
  monthlyPMI (calculateMortgage tinyLoan)
  = calculatePMI (loanAmount tinyLoan - downPayment tinyLoan)
      (pmiRateOrDefault tinyLoan)
  /\ calculatePMI (loanAmount tinyLoan - downPayment tinyLoan)
       (pmiRateOrDefault tinyLoan) = 0.
Proof.
  assert (Hn : loanAmount tinyLoan <> 0) by qc_eval.
  pose proof (calculateMortgage_PMI tinyLoan Hn) as H. cbv zeta in H.
  destruct H as (_ & H1 & _ & H2). split.
  - apply H1. qc_eval.
  - apply H2; qc_eval.
Defined.

(** C6, as stated, fails: a price of 10 with nothing down is below 20%
    and has a positive PMI rate of 0.5%, yet the premium of 0.004 a month
    rounds to a PMI of 0. *)
Lemma calculateMortgage_PMI_counterexample :
  ~ (forall inputs : MortgageInputs,
       downPayment inputs / loanAmount inputs < dec 20 100 ->
       0 < pmiRateOrDefault inputs ->
       0 < monthlyPMI (calculateMortgage inputs)).
Proof.
  intros H. specialize (H tinyLoan).
  assert (H1 : downPayment tinyLoan / loanAmount tinyLoan < dec 20 100) by qc_eval.
  assert (H2 : 0 < pmiRateOrDefault tinyLoan) by qc_eval.
  specialize (H H1 H2). revert H.
  unfold calculateMortgage; cbn [monthlyPMI]. qc_eval.
Qed.

End PMI.

(* ================================================================= *)
(** ** Payoff time *)

Section PayoffTime.

Lemma Math_min_le_l (a b : number) : Math_min a b <= a.
Proof. unfold Math_min. destruct (Qclt_le_dec b a); qlra. Qed.

Lemma Math_min_le_r (a b : number) : Math_min a b <= b.
Proof. unfold Math_min. destruct (Qclt_le_dec b a); qlra. Qed.

Lemma Math_min_glb (a b c : number) : c <= a -> c <= b -> c <= Math_min a b.
Proof. unfold Math_min. destruct (Qclt_le_dec b a); auto. Qed.

Variables monthlyRate monthlyPayment : number.





End PayoffTime.

Section PayoffTimeClaims.




(** The interest compared with the payment is the one rounded to cents.  A
    payment of a fraction of a cent above it but not above the unrounded
    interest (here 15.041 against 15.04 and 15.0416...) enters the loop,
    which leaves through its safety check after one month. *)
Remark calculatePayoffTime_between_roundings :
  dec 15041 1000 <= ofZ 1000 * (dec 1805 100 / ofZ 100 / ofZ 12)
  /\ calculateMonthlyInterest (ofZ 1000) (dec 1805 100) = dec 1504 100
  /\ exists i p,
       calculatePayoffTime (ofZ 1000) (dec 1805 100) (dec 15041 1000)
       = mkPayoffResult (Finite (ofZ 1)) (Finite i) (Finite p).
Proof.
  split; [qc_eval|]. split; [qc_eval|].
  eexists _, _. vm_compute. reflexivity.
Qed.

End PayoffTimeClaims.

(* ================================================================= *)
(** ** Payment schedule *)

Section PaymentSchedule.

Variables monthlyRate monthlyPayment : number.

Lemma scheduleLoop_length (count : nat) (balance : number) (d : Date) :
  (List.length (scheduleLoop monthlyRate monthlyPayment count balance d) <= count)%nat.
Proof.
  revert balance d. induction count as [|count IH]; intros balance d; cbn.
  - lia.
  - destruct (Qclt_le_dec (dec 1 100) balance); cbn; [|lia].
    match goal with |- context [Qclt_le_dec 0 ?a] => destruct (Qclt_le_dec 0 a) end;
      cbn; [|lia].
    apply le_n_S, IH.
Qed.

(** The amounts of the schedule do not depend on the starting date. *)
Lemma scheduleLoop_amounts (count : nat) (balance : number) (d1 d2 : Date) :
  map amounts (scheduleLoop monthlyRate monthlyPayment count balance d1)
  = map amounts (scheduleLoop monthlyRate monthlyPayment count balance d2).
Proof.
  revert balance d1 d2.
  induction count as [|count IH]; intros balance d1 d2; cbn; [reflexivity|].
  destruct (Qclt_le_dec (dec 1 100) balance); [|reflexivity].
  match goal with |- context [Qclt_le_dec 0 ?a] => destruct (Qclt_le_dec 0 a) end;
    [|reflexivity].
  cbn [map]. f_equal. apply IH.
Qed.

(** The dates of the schedule are the months that follow the starting
    date. *)
Lemma scheduleLoop_dates (count : nat) (balance : number) (d : Date) :
  map date (scheduleLoop monthlyRate monthlyPayment count balance d)
  = monthlyDates
      (List.length (scheduleLoop monthlyRate monthlyPayment count balance d)) d.
Proof.
  revert balance d. induction count as [|count IH]; intros balance d; cbn;
    [reflexivity|].
  destruct (Qclt_le_dec (dec 1 100) balance); [|reflexivity].
  match goal with |- context [Qclt_le_dec 0 ?a] => destruct (Qclt_le_dec 0 a) end;
    [|reflexivity].
  cbn [map List.length monthlyDates date]. unfold nextMonth. f_equal. apply IH.
Qed.

End PaymentSchedule.

Section PaymentScheduleClaims.

Lemma monthsBelow_whole (n : nat) : monthsBelow (ofZ (Z.of_nat n)) = n.
Proof.
  unfold monthsBelow, Qceiling.
  assert (H : Qfloor (- this (ofZ (Z.of_nat n))) = (- Z.of_nat n)%Z).
  { rewrite <- (Qfloor_Z (- Z.of_nat n)). apply Qfloor_comp.
    rewrite this_ofZ, inject_Z_opp. reflexivity. }
  rewrite H. lia.
Qed.

Lemma monthsBelow_bounds (maxMonths : number) :
  (maxMonths <= 0 -> monthsBelow maxMonths = 0%nat)
  /\ (0 <= maxMonths ->
      maxMonths <= ofZ (Z.of_nat (monthsBelow maxMonths))
      /\ ofZ (Z.of_nat (monthsBelow maxMonths)) < maxMonths + 1).
Proof.
  unfold monthsBelow, Qceiling.
  pose proof (Qfloor_le (- this maxMonths)) as Hle.
  pose proof (Qlt_floor (- this maxMonths)) as Hlt.
  rewrite inject_Z_plus in Hlt. change (inject_Z 1) with 1%Q in Hlt.
  set (f := Qfloor (- this maxMonths)) in *. clearbody f.
  split.
  - intros H. assert (Hf : (0 <= f)%Z).
    { assert (Hf : (-1 < f)%Z); [|lia].
      rewrite Zlt_Qlt. unfold Qcle in H. change (this 0) with 0%Q in H.
      change (inject_Z (-1)) with (-1)%Q. lra. }
    lia.
  - intros H. assert (Hf : (f <= 0)%Z).
    { rewrite Zle_Qle. unfold Qcle in H. change (this 0) with 0%Q in H.
      change (inject_Z 0) with 0%Q. lra. }
    rewrite Z2Nat.id by lia.
    unfold Qcle, Qclt. rewrite this_plus, this_ofZ, inject_Z_opp.
    change (this 1) with 1%Q. split; lra.
Qed.

(** C10, as amended.  [generatePaymentSchedule] returns at most as many
    entries as there are counters below [maxMonths]: [maxMonths] of them
    when it is a whole number, fewer than [maxMonths + 1] in general and
    none when it is not positive.  When the payment is below the first
    month's interest charge [balance * rate/100/12] (by [slack] or more:
    the source compares with the charge it computes in doubles) it
    returns the empty schedule, the very value it returns for a balance
    that is already paid off (at most 0.01): no sentinel tells the two
    apart. *)
Theorem generatePaymentSchedule_bounded
    (now : Date) (balance rate payment maxMonths : number) :
  let schedule :=
    generatePaymentSchedule now balance rate payment (monthsBelow maxMonths) in
  (List.length schedule <= monthsBelow maxMonths)%nat
  /\ (forall n : nat, maxMonths = ofZ (Z.of_nat n) ->
        (List.length schedule <= n)%nat)
  /\ (0 <= maxMonths -> ofZ (Z.of_nat (List.length schedule)) < maxMonths + 1)
  /\ (maxMonths <= 0 -> schedule = [])
  /\ (payment + slack <= balance * (rate / ofZ 100 / ofZ 12) -> schedule = [])
  /\ (balance <= dec 1 100 -> schedule = []).
Proof.
  cbv zeta. unfold generatePaymentSchedule.
  pose proof (scheduleLoop_length (rate / ofZ 100 / ofZ 12) payment
                (monthsBelow maxMonths) balance now) as Hlen.
  pose proof (monthsBelow_bounds maxMonths) as [Hneg Hpos].
  split; [exact Hlen|]. split; [|split; [|split; [|split]]].
  - intros n Hn. subst maxMonths. rewrite monthsBelow_whole in Hlen |- *.
    exact Hlen.
  - intros H0. destruct (Hpos H0) as [_ Hup].
    eapply Qcle_lt_trans; [|exact Hup].
    unfold Qcle. rewrite !this_ofZ, <- Zle_Qle. lia.
  - intros H0. rewrite (Hneg H0). reflexivity.
  - intros Hp. destruct (monthsBelow maxMonths) as [|count]; [reflexivity|].
    cbn.
    destruct (Qclt_le_dec (dec 1 100) balance) as [_|Hb']; [|reflexivity].
    match goal with |- context [Qclt_le_dec 0 ?a] =>
      destruct (Qclt_le_dec 0 a) as [Hpos'|_] end; [|reflexivity].
    exfalso.
    pose proof (Math_min_le_l
                  (payment - balance * (rate / ofZ 100 / ofZ 12)) balance) as Hmin.
    set (m := Math_min _ _) in *. clearbody m.
    set (i := balance * (rate / ofZ 100 / ofZ 12)) in *. clearbody i.
    unfold slack in Hp. clear Hlen Hneg Hpos. qlra.
  - intros Hb. destruct (monthsBelow maxMonths) as [|count]; [reflexivity|].
    cbn.
    destruct (Qclt_le_dec (dec 1 100) balance) as [Hb'|_]; [|reflexivity].
    exfalso. clear Hlen Hneg Hpos. qlra.
Qed.

Lemma generatePaymentSchedule_bounded_witness :
  generatePaymentSchedule (mkDate 2024 0 15) (ofZ 5000) (ofZ 18) (ofZ 50)
    (monthsBelow (ofZ 120)) = []
  /\ generatePaymentSchedule (mkDate 2024 0 15) (dec 1 100) (ofZ 18) (ofZ 50)
       (monthsBelow (ofZ 120)) = []
  /\ (List.length
        (generatePaymentSchedule (mkDate 2024 0 15) (ofZ 1000) 0 (ofZ 100)
           (monthsBelow (ofZ 3))) <= 3)%nat.
Proof.
  pose proof (generatePaymentSchedule_bounded
                (mkDate 2024 0 15) (ofZ 5000) (ofZ 18) (ofZ 50) (ofZ 120)) as H1.
  pose proof (generatePaymentSchedule_bounded
                (mkDate 2024 0 15) (dec 1 100) (ofZ 18) (ofZ 50) (ofZ 120)) as H2.
  pose proof (generatePaymentSchedule_bounded
                (mkDate 2024 0 15) (ofZ 1000) 0 (ofZ 100) (ofZ 3)) as H3.
  cbv zeta in H1, H2, H3.
  destruct H1 as (_ & _ & _ & _ & H1 & _).
  destruct H2 as (_ & _ & _ & _ & _ & H2).
  destruct H3 as (_ & H3 & _).
  split; [|split].
  - apply H1. qc_eval.
  - apply H2. qc_eval.
  - apply (H3 3%nat). reflexivity.
Defined.

(** C10, as stated, fails for a [maxMonths] that is not a whole number:
    1000 repaid by 100 a month without interest, with [maxMonths] 2.5, has
    the three entries of the counters 0, 1 and 2. *)
Lemma generatePaymentSchedule_bounded_counterexample :
  ~ (forall (now : Date) (balance rate payment maxMonths : number),
       ofZ (Z.of_nat
              (List.length
                 (generatePaymentSchedule now balance rate payment
                    (monthsBelow maxMonths))))
       <= maxMonths).
Proof.
  intros H.
  specialize (H (mkDate 2024 0 15) (ofZ 1000) 0 (ofZ 100) (dec 5 2)).
  revert H. vm_compute. intros H. apply H. reflexivity.
Qed.

(** C8, as amended.  The number of entries of [generatePaymentSchedule] and
    the amount, interest, principal and remaining balance of each depend
    on the arguments alone; the dates do not: each is [nextMonth] of the
    one before, the first [nextMonth] of the current date of the call
    ([nextMonth] keeps the day of the month, and a day past the end of
    the next month runs over into the month after it). *)
Theorem generatePaymentSchedule_clock
    (now1 now2 : Date) (balance rate payment : number) (maxMonths : nat) :
  map amounts (generatePaymentSchedule now1 balance rate payment maxMonths)
  = map amounts (generatePaymentSchedule now2 balance rate payment maxMonths)
  /\ List.length (generatePaymentSchedule now1 balance rate payment maxMonths)
     = List.length (generatePaymentSchedule now2 balance rate payment maxMonths)
  /\ map date (generatePaymentSchedule now1 balance rate payment maxMonths)
     = monthlyDates
         (List.length (generatePaymentSchedule now1 balance rate payment maxMonths))
         now1.
Proof.
  unfold generatePaymentSchedule.
  pose proof (scheduleLoop_amounts (rate / ofZ 100 / ofZ 12) payment
                maxMonths balance now1 now2) as Ha.
  split; [exact Ha|split].
  - apply (f_equal (@List.length _)) in Ha. now rewrite !length_map in Ha.
  - apply scheduleLoop_dates.
Qed.

(** C8, as stated, fails: the same arguments give different entries on
    15 January 2024 and on 15 February 2024. *)
Lemma generatePaymentSchedule_clock_counterexample :
  generatePaymentSchedule (mkDate 2024 0 15) (ofZ 1000) (ofZ 12) (ofZ 600) 3
  <> generatePaymentSchedule (mkDate 2024 1 15) (ofZ 1000) (ofZ 12) (ofZ 600) 3.
Proof.
  intros H. apply (f_equal (map date)) in H. vm_compute in H. discriminate.
Qed.

(** From 31 January 2024 the first two dates are 2 March and 2 April:
    there is no 31 February, and the day of the month once moved is
    kept. *)
Remark monthlyDates_end_of_month :
  monthlyDates 2 (mkDate 2024 0 31) = [mkDate 2024 2 2; mkDate 2024 3 2].
Proof. reflexivity. Qed.

End PaymentScheduleClaims.

(* ================================================================= *)
(** ** Priority orders *)

Section SortFacts.

Context {A : Type} (compareFn : A -> A -> number) (key : A -> number).
Hypothesis compareFn_key : forall a b, 0 < compareFn a b <-> key b < key a.

Lemma sort_insert_perm (x : A) (l : list A) :
  Permutation (sort_insert compareFn x l) (x :: l).
Proof.
  induction l as [|y l IH]; cbn; [reflexivity|].
  destruct (Qclt_le_dec 0 (compareFn x y)); [|reflexivity].
  rewrite IH. apply perm_swap.
Qed.

Lemma sort_perm (l : list A) : Permutation (sort compareFn l) l.
Proof.
  induction l as [|x l IH]; cbn; [reflexivity|].
  rewrite sort_insert_perm. now constructor.
Qed.

Lemma sort_insert_headLeast (x : A) (l : list A) :
  headLeast key l -> headLeast key (sort_insert compareFn x l).
Proof.
  destruct l as [|y l]; cbn.
  - intros _. constructor; [apply Qcle_refl|constructor].
  - intros Hl. destruct (Qclt_le_dec 0 (compareFn x y)) as [Hlt|Hge]; cbn.
    + apply compareFn_key in Hlt.
      eapply Permutation_Forall.
      * symmetry. apply perm_skip. apply sort_insert_perm.
      * inversion Hl; subst. constructor; [assumption|].
        constructor; [apply Qclt_le_weak; assumption|assumption].
    + assert (Hxy : key x <= key y).
      { apply Qcnot_lt_le. intros Hlt. apply compareFn_key in Hlt.
        revert Hlt. apply Qcle_not_lt. assumption. }
      constructor; [apply Qcle_refl|].
      eapply Forall_impl; [|exact Hl].
      intros c Hc. cbn in Hc. eapply Qcle_trans; eassumption.
Qed.

Lemma sort_headLeast (l : list A) : headLeast key (sort compareFn l).
Proof.
  induction l as [|x l IH]; cbn; [exact I|].
  apply sort_insert_headLeast, IH.
Qed.

Lemma sort_first_least (l : list A) (first : A) (rest : list A) (c : A) :
  sort compareFn l = first :: rest -> In c l -> key first <= key c.
Proof.
  intros Hs Hc. pose proof (sort_headLeast l) as Hh. rewrite Hs in Hh.
  cbn in Hh. rewrite Forall_forall in Hh. apply Hh.
  rewrite <- Hs. eapply Permutation_in; [symmetry; apply sort_perm|assumption].
Qed.

End SortFacts.

(* ================================================================= *)
(** ** Payment distribution *)

Section Distribution.

Lemma priorityOrder_perm (strategy : Strategy) (cards : list CreditCard) :
  Permutation (priorityOrder strategy cards) cards.
Proof. destruct strategy; apply sort_perm. Qed.

(** The first card of the priority order has priority over every card. *)
Lemma priorityOrder_first (strategy : Strategy) (cards : list CreditCard)
    (first : CreditCard) (rest : list CreditCard) (c : CreditCard) :
  priorityOrder strategy cards = first :: rest ->
  In c cards -> hasPriority strategy first c.
Proof.
  destruct strategy; cbn; intros Hs Hc.
  - assert (H : - Credit.interestRate first <= - Credit.interestRate c).
    { apply (sort_first_least
               (fun a b => Credit.interestRate b - Credit.interestRate a)
               (fun c => - Credit.interestRate c))
        with (l := cards) (rest := rest); [|exact Hs|exact Hc].
      intros a b. split; intros H; qlra. }
    qlra.
  - apply (sort_first_least (fun a b => balance a - balance b) balance)
      with (l := cards) (rest := rest); [|exact Hs|exact Hc].
    intros a b. split; intros H; qlra.
Qed.

(** The first phase gives every card an allocation within its balance, and
    splits the budget into what was allocated and what is left. *)
Lemma allocateMinimums_spec (cards : list CreditCard) (budget : number) :
  Forall (fun c => 0 <= balance c /\ 0 <= minimumPayment c) cards ->
  0 <= budget ->
  Forall2 allocationFor cards (fst (allocateMinimums cards budget))
  /\ 0 <= snd (allocateMinimums cards budget)
  /\ sum (map payment (fst (allocateMinimums cards budget)))
     + snd (allocateMinimums cards budget) = budget.
Proof.
  intros Hcards. revert budget.
  induction Hcards as [|card rest [Hbal Hmin] _ IH]; intros budget Hb; cbn.
  - repeat split; [constructor|assumption|qlra].
  - set (m := Math_min (Math_min (minimumPayment card) budget) (balance card)).
    assert (Hm : 0 <= m /\ m <= budget /\ m <= balance card).
    { subst m. split; [|split].
      - repeat apply Math_min_glb; assumption.
      - eapply Qcle_trans; [apply Math_min_le_l|apply Math_min_le_r].
      - apply Math_min_le_r. }
    destruct Hm as (Hm0 & Hmb & Hmc).
    specialize (IH (budget - m)).
    destruct (allocateMinimums rest (budget - m)) as [payments remaining].
    cbn in *. destruct IH as (IH1 & IH2 & IH3); [qlra|].
    split; [|split].
    + constructor; [|assumption]. repeat split; assumption.
    + assumption.
    + set (t := sum (map payment payments)) in *. clearbody t m. qlra.
Qed.

Lemma addToFirst_head (cardId' : string) (f : PaymentAllocation -> number)
    (p : PaymentAllocation) (rest : list PaymentAllocation) :
  cardId p = cardId' ->
  addToFirst cardId' f (p :: rest)
  = {| cardId := cardId p; payment := payment p + f p |} :: rest.
Proof. intros H. cbn. rewrite H, String.eqb_refl. reflexivity. Qed.

Lemma Math_min_add (p remaining bal : number) :
  p + Math_min remaining (bal - p) = Math_min (p + remaining) bal.
Proof.
  unfold Math_min.
  destruct (Qclt_le_dec (bal - p) remaining), (Qclt_le_dec bal (p + remaining));
    qlra.
Qed.

(** The distribution is the first phase's allocations, the head one raised
    by all that is left of the budget, capped at the head card's balance. *)
Lemma calculateOptimalPaymentDistribution_shape
    (cards : list CreditCard) (budget : number) (strategy : Strategy) :
  Forall (fun c => 0 <= balance c /\ 0 <= minimumPayment c) cards ->
  0 <= budget ->
  match priorityOrder strategy cards,
        fst (allocateMinimums (priorityOrder strategy cards) budget) with
  | first :: _, p0 :: payments =>
      calculateOptimalPaymentDistribution cards budget strategy
      = {| cardId := id first;
           payment :=
             Math_min
               (payment p0
                + snd (allocateMinimums (priorityOrder strategy cards) budget))
               (balance first) |} :: payments
  | [], [] => calculateOptimalPaymentDistribution cards budget strategy = []
  | _, _ => False
  end.
Proof.
  intros Hcards Hb.
  assert (Hsorted : Forall (fun c => 0 <= balance c /\ 0 <= minimumPayment c)
                      (priorityOrder strategy cards)).
  { eapply Permutation_Forall; [symmetry; apply priorityOrder_perm|assumption]. }
  pose proof (allocateMinimums_spec _ budget Hsorted Hb) as (Hall & Hrem & _).
  unfold calculateOptimalPaymentDistribution.
  change (match strategy with
          | avalanche => calculateDebtAvalanche cards
          | snowball => calculateDebtSnowball cards
          end) with (priorityOrder strategy cards).
  destruct (allocateMinimums (priorityOrder strategy cards) budget)
    as [payments remaining]; cbn [fst snd] in *.
  destruct Hall as [|first p0 sorted payments (Hid & Hp0 & Hp1) Hall].
  - reflexivity.
  - destruct (Qclt_le_dec 0 remaining) as [Hpos|Hzero].
    + rewrite addToFirst_head by assumption.
      rewrite Math_min_add, Hid. reflexivity.
    + assert (Hr : remaining = 0) by qlra. subst remaining.
      destruct p0 as [i p]; cbn in *. subst i. f_equal. f_equal.
      unfold Math_min. destruct (Qclt_le_dec (balance first) (p + 0)); qlra.
Qed.

End Distribution.

(* ================================================================= *)
(** ** Amortization: the loop and its accumulators *)

Section AmortizationLoop.

Variables r M : number.





End AmortizationLoop.

Section AmortizationInvariant.

Variables P r M : number.
Hypothesis r_nonneg : 0 <= r.
Hypothesis M_nonneg : 0 <= M.




Lemma ofZ_succ (k : nat) : ofZ (Z.of_nat (S k)) = ofZ (Z.of_nat k) + 1.
Proof.
  apply Qc_is_canon. rewrite this_plus, !this_ofZ, Nat2Z.inj_succ.
  unfold Z.succ. rewrite inject_Z_plus. reflexivity.
Qed.






End AmortizationInvariant.

(* ================================================================= *)
(** ** The payment and the annuity factor *)

Section PaymentFacts.

Lemma Math_pow_nat (b : number) (e : Z) :
  (0 <= e)%Z -> Math_pow b e = b ^ Z.to_nat e.
Proof. destruct e as [|p|p]; intros He; [reflexivity|reflexivity|lia]. Qed.

Lemma compound_rate (r : number) (n : nat) :
  compound r n * r = (1 + r) ^ n - 1.
Proof.
  induction n as [|n IH]; cbn [compound Qcpower]; [ring|].
  assert (H : (compound r n * (1 + r) + 1) * r
              = compound r n * r * (1 + r) + r) by ring.
  rewrite H, IH. ring.
Qed.

Lemma compound_zero (n : nat) : compound 0 n = ofZ (Z.of_nat n).
Proof.
  induction n as [|n IH]; [reflexivity|].
  cbn [compound]. rewrite IH, ofZ_succ. ring.
Qed.

Lemma Qcmult_nonneg (a b : number) : 0 <= a -> 0 <= b -> 0 <= a * b.
Proof.
  intros Ha Hb. rewrite <- (Qcmult_0_l b). apply Qcmult_le_compat_r; assumption.
Qed.

Lemma pow_ge_1 (r : number) (n : nat) : 0 <= r -> 1 <= (1 + r) ^ n.
Proof.
  intros Hr. induction n as [|n IH]; cbn [Qcpower]; [apply Qcle_refl|].
  assert (H : 0 <= r * (1 + r) ^ n).
  { apply Qcmult_nonneg; [assumption|]. qlra. }
  assert (Heq : (1 + r) * (1 + r) ^ n = (1 + r) ^ n + r * (1 + r) ^ n) by ring.
  rewrite Heq. qlra.
Qed.

Lemma pow_gt_1 (r : number) (n : nat) : 0 < r -> (0 < n)%nat -> 1 < (1 + r) ^ n.
Proof.
  intros Hr Hn. destruct n as [|n]; [lia|]. cbn [Qcpower].
  pose proof (pow_ge_1 r n (Qclt_le_weak _ _ Hr)) as Hge.
  assert (H : 0 <= r * ((1 + r) ^ n - 1)).
  { apply Qcmult_nonneg; qlra. }
  assert (Heq : (1 + r) * (1 + r) ^ n
                = (1 + r) ^ n + r + r * ((1 + r) ^ n - 1)) by ring.
  rewrite Heq. qlra.
Qed.

Lemma compound_nonneg (r : number) (n : nat) : 0 <= r -> 0 <= compound r n.
Proof.
  intros Hr. induction n as [|n IH]; cbn [compound]; [apply Qcle_refl|].
  assert (H : 0 <= compound r n * r) by (apply Qcmult_nonneg; assumption).
  assert (Heq : compound r n * (1 + r) + 1 = compound r n + compound r n * r + 1)
    by ring.
  rewrite Heq. qlra.
Qed.


Lemma ofZ_pos (z : Z) : (0 < z)%Z -> 0 < ofZ z.
Proof.
  intros Hz. unfold Qclt. rewrite this_ofZ. rewrite Zlt_Qlt in Hz. exact Hz.
Qed.

Lemma monthlyRate_nonneg (rate : number) : 0 <= rate -> 0 <= rate / ofZ 100 / ofZ 12.
Proof. intros H. qlra. Qed.

Lemma monthlyRate_pos (rate : number) : 0 < rate -> 0 < rate / ofZ 100 / ofZ 12.
Proof. intros H. qlra. Qed.

Lemma payments_count (termYears : Z) :
  (0 < termYears)%Z ->
  ofZ (Z.of_nat (Z.to_nat (termYears * 12))) = ofZ termYears * ofZ 12.
Proof. intros Ht. rewrite Z2Nat.id by lia. apply ofZ_mult. Qed.

Lemma calculateMonthlyPayment_unrounded (P rate : number) (termYears : Z) :
  calculateMonthlyPayment P rate termYears
  = toCents (unroundedPayment P rate termYears).
Proof.
  unfold calculateMonthlyPayment, unroundedPayment, toCents.
  destruct (Qc_eq_dec rate 0); reflexivity.
Qed.

(** The unrounded payment is the one that repays the loan exactly: [n]
    payments compounded are worth the compounded principal. *)
Lemma unroundedPayment_compound (P rate : number) (termYears : Z) :
  0 <= rate -> (0 < termYears)%Z ->
  let r := rate / ofZ 100 / ofZ 12 in
  let n := Z.to_nat (termYears * 12) in
  unroundedPayment P rate termYears * compound r n = P * (1 + r) ^ n.
Proof.
  intros Hrate Ht r n. unfold unroundedPayment.
  destruct (Qc_eq_dec rate 0) as [H0|Hne].
  - assert (Hr : r = 0) by (subst r rate; qc_eval).
    rewrite Hr, compound_zero.
    assert (H1 : 1 + 0 = 1) by ring. rewrite H1, Qcpower_1.
    subst n. rewrite payments_count by assumption.
    pose proof (ofZ_pos termYears Ht) as Hp.
    field. split; [qc_eval|qlra].
  - fold r. rewrite Math_pow_nat by lia. fold n.
    assert (Hr : 0 < r).
    { apply monthlyRate_pos. destruct (Qcle_lt_or_eq _ _ Hrate) as [H|H];
        [assumption|]. exfalso. apply Hne. symmetry. assumption. }
    assert (Hn : (0 < n)%nat) by (subst n; lia).
    pose proof (pow_gt_1 r n Hr Hn) as Hq.
    pose proof (compound_rate r n) as Hc.
    rewrite <- Hc.
    assert (HS : compound r n <> 0).
    { intros HS. rewrite HS in Hc.
      assert (Hz : (0 : number) * r = 0) by ring. rewrite Hz in Hc.
      set (q := (1 + r) ^ n) in *. clearbody q. qlra. }
    assert (Hr0 : r <> 0) by qlra.
    field. split; assumption.
Qed.

Lemma unroundedPayment_nonneg (P rate : number) (termYears : Z) :
  0 <= P -> 0 <= rate -> (0 < termYears)%Z ->
  0 <= unroundedPayment P rate termYears.
Proof.
  intros HP Hrate Ht.
  pose proof (unroundedPayment_compound P rate termYears Hrate Ht) as Hc.
  cbv zeta in Hc.
  set (r := rate / ofZ 100 / ofZ 12) in *.
  set (n := Z.to_nat (termYears * 12)) in *.
  assert (Hr : 0 <= r) by (apply monthlyRate_nonneg; assumption).
  assert (Hn : (0 < n)%nat) by (subst n; lia).
  assert (HS : 0 < compound r n).
  { destruct n as [|n]; [lia|]. cbn [compound].
    pose proof (compound_nonneg r n Hr) as H1.
    assert (H2 : 0 <= compound r n * r) by (apply Qcmult_nonneg; assumption).
    assert (Heq : compound r n * (1 + r) + 1 = compound r n + compound r n * r + 1)
      by ring.
    rewrite Heq. qlra. }
  assert (Hq : 0 <= P * (1 + r) ^ n).
  { apply Qcmult_nonneg; [assumption|].
    pose proof (pow_ge_1 r n Hr). qlra. }
  rewrite <- Hc in Hq.
  apply Qcnot_lt_le. intros Hneg.
  assert (H : unroundedPayment P rate termYears * compound r n < 0 * compound r n).
  { apply Qcmult_lt_compat_r; assumption. }
  assert (Hz : 0 * compound r n = 0) by ring. rewrite Hz in H.
  revert H. apply Qcle_not_lt. assumption.
Qed.

Lemma calculateMonthlyPayment_nonneg (P rate : number) (termYears : Z) :
  0 <= P -> 0 <= rate -> (0 < termYears)%Z ->
  0 <= calculateMonthlyPayment P rate termYears.
Proof.
  intros. rewrite calculateMonthlyPayment_unrounded.
  apply toCents_nonneg, unroundedPayment_nonneg; assumption.
Qed.


End PaymentFacts.

(* ================================================================= *)
(** ** The payment covers the principal, up to rounding *)

Section PaymentCoversPrincipal.





End PaymentCoversPrincipal.

(* ================================================================= *)
(** ** The amortization schedule *)

Section Schedule.



Lemma toCents_0 : toCents 0 = 0.
Proof. qc_eval. Qed.

Lemma absDiff_le (x y e : number) :
  x - y <= e -> y - x <= e -> absDiff x y <= e.
Proof. intros H1 H2. unfold absDiff. destruct (Qclt_le_dec x y); assumption. Qed.







End Schedule.

(* ================================================================= *)
(** ** Total interest: the formula against the schedule *)

Section TotalInterest.





End TotalInterest.

(* ================================================================= *)
(** ** Rounding to binary64 *)

Section Binary64Facts.

Lemma pow2_pos (e : Z) : (0 < 2 ^ e)%Q.
Proof. apply Qpower_0_lt. reflexivity. Qed.

Lemma pow2_Z (n : Z) : (0 <= n)%Z -> (2 ^ n == inject_Z (2 ^ n))%Q.
Proof.
  intros Hn. change 2%Q with (inject_Z 2). symmetry.
  apply Zpower_Qpower. exact Hn.
Qed.

(** The exponent found is not above the number. *)
Lemma exponent_le (q : Q) : (0 < q)%Q -> (2 ^ Binary64.exponent q <= q)%Q.
Proof.
  intros Hq. unfold Binary64.exponent.
  set (k := (Z.log2 (Qnum q) - Z.log2 (Z.pos (Qden q)))%Z).
  destruct (Qle_bool (2 ^ k) q) eqn:Hb.
  - apply Qle_bool_iff. exact Hb.
  - destruct q as [n d]. cbn [Qnum Qden] in *.
    assert (Hn : (0 < n)%Z).
    { unfold Qlt in Hq. cbn in Hq. lia. }
    pose proof (Z.log2_spec n Hn) as [Hn1 _].
    pose proof (Z.log2_spec (Z.pos d) (Pos2Z.is_pos d)) as [_ Hd2].
    pose proof (Z.log2_nonneg n) as Hln.
    pose proof (Z.log2_nonneg (Z.pos d)) as Hld.
    set (ln := Z.log2 n) in *. set (ld := Z.log2 (Z.pos d)) in *.
    assert (He : (2 ^ (k - 1) == 2 ^ ln * / 2 ^ (ld + 1))%Q).
    { replace (k - 1)%Z with (ln + - (ld + 1))%Z by (subst k; lia).
      rewrite Qpower_plus by (intros H; discriminate H).
      rewrite Qpower_opp. reflexivity. }
    rewrite He. rewrite !pow2_Z by lia.
    replace (Z.succ ld) with (ld + 1)%Z in Hd2 by lia.
    set (A := (2 ^ ln)%Z) in *. set (B := (2 ^ (ld + 1))%Z) in *.
    assert (HB : (0 < B)%Z) by lia.
    destruct B as [|B|B]; try lia.
    unfold Qle, Qinv, Qmult, inject_Z. cbn. nia.
Qed.

(** The exponent found is that of the number. *)
Lemma exponent_lt (q : Q) : (0 < q)%Q -> (q < 2 ^ (Binary64.exponent q + 1))%Q.
Proof.
  intros Hq. unfold Binary64.exponent.
  set (k := (Z.log2 (Qnum q) - Z.log2 (Z.pos (Qden q)))%Z).
  destruct (Qle_bool (2 ^ k) q) eqn:Hb.
  - destruct q as [n d]. cbn [Qnum Qden] in *.
    assert (Hn : (0 < n)%Z).
    { unfold Qlt in Hq. cbn in Hq. lia. }
    pose proof (Z.log2_spec n Hn) as [_ Hn2].
    pose proof (Z.log2_spec (Z.pos d) (Pos2Z.is_pos d)) as [Hd1 _].
    pose proof (Z.log2_nonneg n) as Hln.
    pose proof (Z.log2_nonneg (Z.pos d)) as Hld.
    set (ln := Z.log2 n) in *. set (ld := Z.log2 (Z.pos d)) in *.
    assert (He : (2 ^ (k + 1) == 2 ^ (ln + 1) * / 2 ^ ld)%Q).
    { replace (k + 1)%Z with ((ln + 1) + - ld)%Z by (subst k; lia).
      rewrite Qpower_plus by (intros H; discriminate H).
      rewrite Qpower_opp. reflexivity. }
    rewrite He. rewrite !pow2_Z by lia.
    replace (Z.succ ln) with (ln + 1)%Z in Hn2 by lia.
    set (A := (2 ^ (ln + 1))%Z) in *. set (B := (2 ^ ld)%Z) in *.
    assert (HB : (0 < B)%Z) by (subst B; apply Z.pow_pos_nonneg; lia).
    destruct B as [|B|B]; try lia.
    unfold Qlt, Qinv, Qmult, inject_Z. cbn. nia.
  - replace (k - 1 + 1)%Z with k by lia.
    apply Qnot_le_lt. intros H. apply Qle_bool_iff in H.
    rewrite H in Hb. discriminate.
Qed.

Lemma nearestEven_bounds (q : Q) :
  (q - (1 # 2) <= inject_Z (Binary64.nearestEven q) <= q + (1 # 2))%Q.
Proof.
  unfold Binary64.nearestEven.
  pose proof (Qfloor_le q) as Hle. pose proof (Qlt_floor q) as Hlt.
  rewrite inject_Z_plus in Hlt. change (inject_Z 1) with 1%Q in Hlt.
  set (f := Qfloor q) in *.
  destruct (Qcompare_spec (q - inject_Z f) (1 # 2)) as [H|H|H].
  - destruct (Z.even f); rewrite ?inject_Z_plus;
      change (inject_Z 1) with 1%Q; lra.
  - lra.
  - rewrite inject_Z_plus. change (inject_Z 1) with 1%Q. lra.
Qed.

(** The rounded number has a significand of 53 bits: it is [m 2^e] with
    [2^52 <= m <= 2^53]. *)
Lemma roundPositive_significand (q : Q) :
  (0 < q)%Q ->
  let e := (Binary64.exponent q - 52)%Z in
  let m := Binary64.nearestEven (q / 2 ^ e) in
  (Binary64.roundPositive q == inject_Z m * 2 ^ e)%Q
  /\ (4503599627370496 <= m <= 9007199254740992)%Z.
Proof.
  intros Hq e m. split; [reflexivity|].
  pose proof (exponent_le q Hq) as Hlo.
  pose proof (exponent_lt q Hq) as Hhi.
  set (E := Binary64.exponent q) in *.
  pose proof (pow2_pos e) as Hs.
  assert (H1 : (2 ^ E == 2 ^ e * 4503599627370496)%Q).
  { replace E with (e + 52)%Z at 1 by (subst e; lia).
    rewrite Qpower_plus by (intros H; discriminate H). reflexivity. }
  assert (H2 : (2 ^ (E + 1) == 2 ^ e * 9007199254740992)%Q).
  { replace (E + 1)%Z with (e + 53)%Z by (subst e; lia).
    rewrite Qpower_plus by (intros H; discriminate H). reflexivity. }
  rewrite H1 in Hlo. rewrite H2 in Hhi.
  assert (Hqs : (q / 2 ^ e * 2 ^ e == q)%Q) by (field; lra).
  subst m. set (s := (2 ^ e)%Q) in *. set (t := (q / s)%Q) in *.
  clearbody s t.
  assert (Ht : (4503599627370496 <= t < 9007199254740992)%Q).
  { split.
    - apply Qnot_lt_le. intros Hc.
      assert (H : (0 < (4503599627370496 - t) * s)%Q)
        by (apply Qmult_lt_0_compat; lra).
      nra.
    - apply Qnot_le_lt. intros Hc.
      assert (H : (0 <= (t - 9007199254740992) * s)%Q)
        by (apply Qmult_le_0_compat; lra).
      nra. }
  unfold Binary64.nearestEven.
  assert (Hf : (4503599627370496 <= Qfloor t <= 9007199254740991)%Z).
  { split.
    - rewrite <- (Qfloor_Z 4503599627370496). apply Qfloor_resp_le.
      change (inject_Z 4503599627370496) with 4503599627370496%Q. lra.
    - assert (H : (Qfloor t < 9007199254740992)%Z); [|lia].
      rewrite Zlt_Qlt. eapply Qle_lt_trans; [apply Qfloor_le|].
      change (inject_Z 9007199254740992) with 9007199254740992%Q. lra. }
  destruct (Qcompare _ _); [destruct (Z.even _)| |]; lia.
Qed.

(** Rounding a positive number gives a positive number and changes it by
    at most [2^-53] of itself. *)
Lemma roundPositive_bounds (q : Q) :
  (0 < q)%Q ->
  (0 < Binary64.roundPositive q
   /\ q * (1 - (1 # 9007199254740992)) <= Binary64.roundPositive q
   /\ Binary64.roundPositive q <= q * (1 + (1 # 9007199254740992)))%Q.
Proof.
  intros Hq. unfold Binary64.roundPositive.
  pose proof (exponent_le q Hq) as He.
  set (E := Binary64.exponent q) in *. clearbody E.
  pose proof (pow2_pos (E - 52)) as Hs.
  assert (Hsplit : (2 ^ E == 2 ^ (E - 52) * 4503599627370496)%Q).
  { replace E with ((E - 52) + 52)%Z at 1 by lia.
    rewrite Qpower_plus by (intros H; discriminate H). reflexivity. }
  set (s := (2 ^ (E - 52))%Q) in *. clearbody s.
  pose proof (nearestEven_bounds (q / s)) as [Hlo Hhi].
  set (m := inject_Z (Binary64.nearestEven (q / s))) in *. clearbody m.
  assert (Hqs : (q / s * s == q)%Q) by (field; lra).
  set (t := (q / s)%Q) in *. clearbody t.
  rewrite Hsplit in He.
  assert (H1 : (0 <= (m - (t - (1 # 2))) * s)%Q)
    by (apply Qmult_le_0_compat; lra).
  assert (H2 : (0 <= (t + (1 # 2) - m) * s)%Q)
    by (apply Qmult_le_0_compat; lra).
  split; [|split]; nra.
Qed.

Lemma fl_bounds (x : number) :
  0 <= x ->
  0 <= Binary64.fl x
  /\ x * (1 - Binary64.unitRoundoff) <= Binary64.fl x
  /\ Binary64.fl x <= x * (1 + Binary64.unitRoundoff).
Proof.
  intros Hx. unfold Binary64.fl, Binary64.unitRoundoff.
  destruct (Qcompare_spec (this x) 0) as [H|H|H].
  - assert (E : x = 0) by (apply Qc_is_canon; exact H). subst x.
    split; [apply Qcle_refl|]. split; qc_eval.
  - exfalso. unfold Qcle in Hx. change (this 0) with 0%Q in Hx. lra.
  - destruct (roundPositive_bounds (this x) H) as (Hp & Hl & Hu).
    set (y := Binary64.roundPositive (this x)) in *. clearbody y.
    split; [|split]; to_Q; lra.
Qed.

(** Rounding keeps the sign. *)
Lemma fl_pos (x : number) : 0 < Binary64.fl x <-> 0 < x.
Proof.
  unfold Binary64.fl.
  destruct (Qcompare_spec (this x) 0) as [H|H|H].
  - assert (E : x = 0) by (apply Qc_is_canon; exact H). subst x. tauto.
  - assert (H' : (0 < - this x)%Q) by lra.
    destruct (roundPositive_bounds _ H') as [Hp _].
    set (y := Binary64.roundPositive (- this x)) in *. clearbody y.
    split; intros Hc; exfalso; to_Q; lra.
  - destruct (roundPositive_bounds _ H) as [Hp _].
    set (y := Binary64.roundPositive (this x)) in *. clearbody y.
    split; intros Hc; to_Q; lra.
Qed.

End Binary64Facts.

(* ================================================================= *)
(** ** Payment distribution in binary64 *)

Section Binary64Distribution.

Lemma sort_ext {A : Type} (f g : A -> A -> number) (l : list A) :
  (forall a b, 0 < f a b <-> 0 < g a b) -> sort f l = sort g l.
Proof.
  intros Hfg. induction l as [|x l IH]; [reflexivity|].
  cbn [sort fold_right]. fold (sort f l). fold (sort g l). rewrite IH.
  generalize (sort g l) as s. intros s.
  induction s as [|y s IHs]; [reflexivity|]. cbn [sort_insert].
  destruct (Qclt_le_dec 0 (f x y)) as [Hf|Hf];
    destruct (Qclt_le_dec 0 (g x y)) as [Hg|Hg].
  - now rewrite IHs.
  - exfalso. apply Hfg in Hf. qlra.
  - exfalso. apply Hfg in Hg. qlra.
  - reflexivity.
Qed.

(** The priority orders are those of the exact subtraction: rounding
    keeps the sign of the comparator. *)
Lemma priorityOrder_binary64 (strategy : Strategy) (cards : list CreditCard) :
  match strategy with
  | avalanche => Binary64.calculateDebtAvalanche cards
  | snowball => Binary64.calculateDebtSnowball cards
  end = priorityOrder strategy cards.
Proof.
  destruct strategy; apply sort_ext; intros a b; apply fl_pos.
Qed.

Lemma roundoff_nonneg : 0 <= Binary64.unitRoundoff.
Proof. qc_eval. Qed.

Lemma growth_ge_1 (n : nat) : 1 <= (1 + Binary64.unitRoundoff) ^ n.
Proof.
  induction n as [|n IH]; cbn [Qcpower]; [apply Qcle_refl|].
  pose proof roundoff_nonneg as Hu.
  set (u := Binary64.unitRoundoff) in *. set (g := (1 + u) ^ n) in *.
  clearbody u g.
  assert (H : 0 <= u * g) by (apply Qcmult_nonneg; qlra).
  assert (E : (1 + u) * g = g + u * g) by ring.
  rewrite E. set (ug := u * g) in *. clearbody ug. qlra.
Qed.

Lemma sum_payments_nonneg (l : list PaymentAllocation) :
  Forall (fun p => 0 <= payment p) l -> 0 <= sum (map payment l).
Proof.
  induction 1 as [|p l Hp _ IH]; cbn [map sum]; [apply Qcle_refl|].
  set (t := sum (map payment l)) in *. clearbody t. qlra.
Qed.

(** The first phase in binary64: every allocation is within its card's
    minimum payment and balance, and the allocations and what is left add
    up to the budget, one rounding per card. *)
Lemma allocateMinimums_binary64 (cards : list CreditCard) (budget : number) :
  Forall (fun c => 0 <= balance c /\ 0 <= minimumPayment c) cards ->
  0 <= budget ->
  Forall2 (fun c p => cardId p = id c /\ 0 <= payment p
                      /\ payment p <= minimumPayment c
                      /\ payment p <= balance c)
          cards (fst (Binary64.allocateMinimums cards budget))
  /\ 0 <= snd (Binary64.allocateMinimums cards budget)
  /\ sum (map payment (fst (Binary64.allocateMinimums cards budget)))
     + snd (Binary64.allocateMinimums cards budget)
     <= budget * (1 + Binary64.unitRoundoff) ^ List.length cards.
Proof.
  intros Hcards. revert budget.
  induction Hcards as [|card rest [Hbal Hmin] _ IH]; intros budget Hb.
  - cbn. split; [constructor|]. split; [assumption|]. qlra.
  - cbn [Binary64.allocateMinimums].
    set (m := Math_min (Math_min (minimumPayment card) budget) (balance card)).
    assert (Hm : 0 <= m /\ m <= budget /\ m <= balance card
                 /\ m <= minimumPayment card).
    { subst m. split; [|split; [|split]].
      - repeat apply Math_min_glb; assumption.
      - eapply Qcle_trans; [apply Math_min_le_l|apply Math_min_le_r].
      - apply Math_min_le_r.
      - eapply Qcle_trans; [apply Math_min_le_l|apply Math_min_le_l]. }
    destruct Hm as (Hm0 & Hmb & Hmc & Hmm).
    assert (Hd : 0 <= budget - m) by qlra.
    destruct (fl_bounds (budget - m) Hd) as (Hf0 & _ & Hfu).
    fold (Binary64.sub budget m) in Hf0, Hfu.
    specialize (IH (Binary64.sub budget m) Hf0).
    destruct (Binary64.allocateMinimums rest (Binary64.sub budget m))
      as [payments remaining].
    cbn [fst snd map sum payment List.length Qcpower] in *.
    destruct IH as (IH1 & IH2 & IH3).
    split; [|split].
    + constructor; [|assumption]. repeat split; assumption.
    + assumption.
    + pose proof (growth_ge_1 (List.length rest)) as Hg.
      pose proof roundoff_nonneg as Hu.
      set (u := Binary64.unitRoundoff) in *.
      set (g := (1 + u) ^ List.length rest) in *.
      set (t := sum (map payment payments)) in *.
      set (b' := Binary64.sub budget m) in *.
      clearbody u g t b' m.
      assert (H1 : b' * g <= (budget - m) * (1 + u) * g).
      { assert (H : 0 <= ((budget - m) * (1 + u) - b') * g)
          by (apply Qcmult_nonneg; qlra).
        assert (E : ((budget - m) * (1 + u) - b') * g
                    = (budget - m) * (1 + u) * g - b' * g) by ring.
        rewrite E in H. set (x := b' * g) in *.
        set (y := (budget - m) * (1 + u) * g) in *. clearbody x y. qlra. }
      assert (H2 : m <= m * ((1 + u) * g)).
      { assert (H : 0 <= m * ((1 + u) * g - 1)).
        { apply Qcmult_nonneg; [assumption|].
          assert (H' : 0 <= u * g) by (apply Qcmult_nonneg; qlra).
          assert (E : (1 + u) * g - 1 = g - 1 + u * g) by ring.
          rewrite E. set (ug := u * g) in *. clearbody ug. qlra. }
        assert (E : m * ((1 + u) * g - 1) = m * ((1 + u) * g) - m) by ring.
        rewrite E in H. set (x := m * ((1 + u) * g)) in *. clearbody x. qlra. }
      assert (E : budget * ((1 + u) * g)
                  = m * ((1 + u) * g) + (budget - m) * (1 + u) * g) by ring.
      rewrite E.
      set (x := m * ((1 + u) * g)) in *.
      set (y := (budget - m) * (1 + u) * g) in *.
      set (z := b' * g) in *. clearbody x y z. qlra.
Qed.

Lemma addToFirst_binary64 (cardId' : string) (f : PaymentAllocation -> number)
    (p : PaymentAllocation) (rest : list PaymentAllocation) :
  cardId p = cardId' ->
  Binary64.addToFirst cardId' f (p :: rest)
  = {| cardId := cardId p; payment := Binary64.add (payment p) (f p) |} :: rest.
Proof. intros H. cbn. rewrite H, String.eqb_refl. reflexivity. Qed.

End Binary64Distribution.

Section Binary64DistributionClaims.

(** C1, as amended.  For cards with non-negative balances and minimum
    payments and a non-negative budget, under either strategy, in the
    arithmetic of the source: the result has one allocation per card, the
    cards taken in priority order; no payment is negative; the payment of
    every card but the first is at most its minimum payment and its
    balance; the first card in priority order (highest rate for avalanche,
    lowest balance for snowball) is paid its first-phase payment plus all
    the budget left after the first phase, capped at what the balance
    exceeds that payment by, which comes to at most its balance and two
    roundings; and the payments sum to at most the budget and one rounding
    for each card and one more. *)
Theorem calculateOptimalPaymentDistribution_sound
    (cards : list CreditCard) (budget : number) (strategy : Strategy) :
  Forall (fun c => 0 <= balance c /\ 0 <= minimumPayment c) cards ->
  0 <= budget ->
  let sorted := priorityOrder strategy cards in
  let result := Binary64.calculateOptimalPaymentDistribution cards budget strategy in
  let minimums := fst (Binary64.allocateMinimums sorted budget) in
  let remaining := snd (Binary64.allocateMinimums sorted budget) in
  Permutation sorted cards
  /\ List.length result = List.length cards
  /\ map cardId result = map id sorted
  /\ Forall (fun p => 0 <= payment p) result
  /\ Forall2 (fun c p => payment p <= minimumPayment c
                         /\ payment p <= balance c)
       (tl sorted) (tl result)
  /\ sum (map payment result)
     <= budget * (1 + Binary64.unitRoundoff) ^ (List.length cards + 1)
  /\ (forall first rest, sorted = first :: rest ->
        (forall c, In c cards -> hasPriority strategy first c)
        /\ exists p0 payments,
             minimums = p0 :: payments
             /\ result =
                  {| cardId := id first;
                     payment :=
                       if Qclt_le_dec 0 remaining
                       then Binary64.add (payment p0)
                              (Math_min remaining
                                 (Binary64.sub (balance first) (payment p0)))
                       else payment p0 |} :: payments
             /\ payment p0 <= balance first
             /\ forall p others, result = p :: others ->
                  payment p
                  <= balance first * (1 + Binary64.unitRoundoff) ^ 2).
Proof.
  intros Hcards Hb sorted result minimums remaining.
  assert (Hperm : Permutation sorted cards) by apply priorityOrder_perm.
  assert (Hsorted : Forall (fun c => 0 <= balance c /\ 0 <= minimumPayment c) sorted).
  { eapply Permutation_Forall; [symmetry; exact Hperm|assumption]. }
  assert (Hlen : List.length sorted = List.length cards)
    by (apply Permutation_length; exact Hperm).
  assert (Hfirst : forall first rest, sorted = first :: rest ->
                   forall c, In c cards -> hasPriority strategy first c).
  { intros first rest Heq c Hc. eapply priorityOrder_first; eassumption. }
  pose proof (allocateMinimums_binary64 sorted budget Hsorted Hb)
    as (Hall & Hrem & Hsum).
  assert (Hres : result =
            match sorted, minimums with
            | first :: _, p0 :: payments =>
                {| cardId := id first;
                   payment :=
                     if Qclt_le_dec 0 remaining
                     then Binary64.add (payment p0)
                            (Math_min remaining
                               (Binary64.sub (balance first) (payment p0)))
                     else payment p0 |} :: payments
            | _, _ => minimums
            end).
  { unfold result, Binary64.calculateOptimalPaymentDistribution.
    rewrite priorityOrder_binary64. fold sorted.
    unfold minimums, remaining in *.
    destruct (Binary64.allocateMinimums sorted budget) as [ps rem].
    cbn [fst snd] in *.
    destruct Hall as [|first p0 rest payments (Hid & _) _]; [reflexivity|].
    destruct (Qclt_le_dec 0 rem) as [Hpos|Hzero].
    - rewrite addToFirst_binary64 by assumption. rewrite Hid. reflexivity.
    - destruct p0 as [i p]; cbn in *. subst i. reflexivity. }
  fold minimums remaining in Hall, Hrem, Hsum. rewrite <- Hlen.
  clearbody result minimums remaining sorted.
  pose proof roundoff_nonneg as Hu.
  pose proof (growth_ge_1 (List.length sorted)) as Hg.
  destruct Hall as [|first p0 rest payments (Hid & Hp0 & Hpm & Hpb) Hrest].
  - subst result. cbn in *.
    split; [assumption|]. split; [reflexivity|]. split; [reflexivity|].
    split; [constructor|]. split; [constructor|].
    split; [|intros first rest Heq; discriminate Heq].
    set (u := Binary64.unitRoundoff) in *. clearbody u.
    assert (H : 0 <= budget * u) by (apply Qcmult_nonneg; assumption).
    assert (E : budget * ((1 + u) * 1) = budget + budget * u) by ring.
    rewrite E. set (bu := budget * u) in *. clearbody bu. qlra.
  - pose proof (Forall_inv Hsorted) as [Hbal Hmin].
    assert (Hpay : Forall (fun p => 0 <= payment p) payments).
    { clear - Hrest. induction Hrest as [|c p l l' (_ & H & _) _ IH];
        constructor; assumption. }
    pose proof (sum_payments_nonneg payments Hpay) as Hsp.
    cbn [map sum List.length Qcpower] in Hsum, Hg.
    set (x := Math_min remaining (Binary64.sub (balance first) (payment p0))) in *.
    assert (Hd : 0 <= balance first - payment p0) by qlra.
    destruct (fl_bounds _ Hd) as (Hs0 & _ & Hsu).
    fold (Binary64.sub (balance first) (payment p0)) in Hs0, Hsu.
    assert (Hx : 0 <= x /\ x <= remaining
                 /\ x <= Binary64.sub (balance first) (payment p0)).
    { subst x. split; [|split].
      - apply Math_min_glb; assumption.
      - apply Math_min_le_l.
      - apply Math_min_le_r. }
    destruct Hx as (Hx0 & Hxr & Hxs).
    assert (Hpx : 0 <= payment p0 + x) by qlra.
    destruct (fl_bounds _ Hpx) as (Ha0 & _ & Hau).
    fold (Binary64.add (payment p0) x) in Ha0, Hau.
    set (head := if Qclt_le_dec 0 remaining
                 then Binary64.add (payment p0) x else payment p0) in *.
    assert (Hhead : 0 <= head
                    /\ head <= (payment p0 + remaining)
                               * (1 + Binary64.unitRoundoff)
                    /\ head <= balance first * (1 + Binary64.unitRoundoff) ^ 2).
    { set (u := Binary64.unitRoundoff) in *.
      set (a := Binary64.add (payment p0) x) in *.
      set (s := Binary64.sub (balance first) (payment p0)) in *.
      set (p := payment p0) in *. set (B := balance first) in *.
      clearbody u a s p B x.
      assert (Hpu : 0 <= p * u) by (apply Qcmult_nonneg; assumption).
      assert (Hru : 0 <= remaining * u) by (apply Qcmult_nonneg; assumption).
      assert (HBu : 0 <= B * u) by (apply Qcmult_nonneg; assumption).
      assert (HBuu : 0 <= B * u * u)
        by (apply Qcmult_nonneg; assumption).
      assert (E1 : (p + remaining) * (1 + u)
                   = p + remaining + p * u + remaining * u) by ring.
      assert (E2 : B * ((1 + u) * ((1 + u) * 1))
                   = B + B * u + B * u + B * u * u) by ring.
      cbn [Qcpower]. rewrite E1, E2.
      subst head. destruct (Qclt_le_dec 0 remaining) as [Hpos|Hzero].
      - assert (H1 : (p + x) * (1 + u) <= (p + remaining) * (1 + u)).
        { assert (H : 0 <= (remaining - x) * (1 + u))
            by (apply Qcmult_nonneg; qlra).
          assert (E : (remaining - x) * (1 + u)
                      = (p + remaining) * (1 + u) - (p + x) * (1 + u)) by ring.
          rewrite E in H.
          set (y := (p + remaining) * (1 + u)) in *.
          set (z := (p + x) * (1 + u)) in *. clearbody y z. qlra. }
        assert (H2 : (p + x) * (1 + u) <= (B + (B - p) * u) * (1 + u)).
        { assert (H : 0 <= (B + (B - p) * u - (p + x)) * (1 + u)).
          { apply Qcmult_nonneg; [|qlra].
            assert (E : (B - p) * (1 + u) = B - p + (B - p) * u) by ring.
            rewrite E in Hsu. set (w := (B - p) * u) in *. clearbody w. qlra. }
          assert (E : (B + (B - p) * u - (p + x)) * (1 + u)
                      = (B + (B - p) * u) * (1 + u) - (p + x) * (1 + u)) by ring.
          rewrite E in H.
          set (y := (B + (B - p) * u) * (1 + u)) in *.
          set (z := (p + x) * (1 + u)) in *. clearbody y z. qlra. }
        assert (H3 : (B + (B - p) * u) * (1 + u)
                     <= B + B * u + B * u + B * u * u).
        { assert (Hpuu : 0 <= p * u * u) by (apply Qcmult_nonneg; assumption).
          assert (E : (B + (B - p) * u) * (1 + u)
                      = B + B * u + B * u + B * u * u - p * u - p * u * u)
            by ring.
          rewrite E. set (c1 := p * u) in *. set (c2 := p * u * u) in *.
          set (c3 := B + B * u + B * u + B * u * u) in *.
          clearbody c1 c2 c3. qlra. }
        rewrite E1 in H1.
        set (y := (p + x) * (1 + u)) in *.
        set (z := (B + (B - p) * u) * (1 + u)) in *.
        set (c1 := p * u) in *. set (c2 := remaining * u) in *.
        set (c3 := B * u) in *. set (c4 := B * u * u) in *.
        clearbody y z c1 c2 c3 c4.
        split; [assumption|]. split; qlra.
      - set (c1 := p * u) in *. set (c2 := remaining * u) in *.
        set (c3 := B * u) in *. set (c4 := B * u * u) in *.
        clearbody c1 c2 c3 c4. split; [assumption|]. split; qlra. }
    destruct Hhead as (Hh0 & Hh1 & Hh2).
    subst result. cbn [map cardId payment tl List.length sum].
    split; [assumption|]. split.
    { f_equal. apply (Forall2_length) in Hrest. symmetry. exact Hrest. }
    split.
    { f_equal. clear - Hrest.
      induction Hrest as [|c p l l' (H & _) _ IH]; [reflexivity|].
      cbn [map]. rewrite H, IH. reflexivity. }
    split; [constructor; assumption|]. split.
    { clear - Hrest. induction Hrest as [|c p l l' (_ & _ & H1 & H2) _ IH];
        constructor; [split; assumption|assumption]. }
    split.
    { replace (S (List.length rest) + 1)%nat
        with (S (S (List.length rest))) by lia.
      cbn [Qcpower].
      set (u := Binary64.unitRoundoff) in *.
      set (g := (1 + u) * (1 + u) ^ List.length rest) in *.
      set (t := sum (map payment payments)) in *.
      set (p := payment p0) in *.
      clearbody u g t p head.
      assert (H1 : (p + t + remaining) * (1 + u) <= budget * g * (1 + u)).
      { assert (H : 0 <= (budget * g - (p + t + remaining)) * (1 + u))
          by (apply Qcmult_nonneg; qlra).
        assert (E : (budget * g - (p + t + remaining)) * (1 + u)
                    = budget * g * (1 + u) - (p + t + remaining) * (1 + u))
          by ring.
        rewrite E in H.
        set (y := budget * g * (1 + u)) in *.
        set (z := (p + t + remaining) * (1 + u)) in *. clearbody y z. qlra. }
      assert (Htu : 0 <= t * u) by (apply Qcmult_nonneg; assumption).
      assert (E1 : (p + t + remaining) * (1 + u)
                   = (p + remaining) * (1 + u) + t + t * u) by ring.
      assert (E2 : budget * ((1 + u) * g) = budget * g * (1 + u)) by ring.
      rewrite E2. rewrite E1 in H1.
      set (y := budget * g * (1 + u)) in *.
      set (z := (p + remaining) * (1 + u)) in *.
      set (c := t * u) in *. clearbody y z c. qlra. }
    intros first' rest' Heq. injection Heq as <- <-.
    split; [eapply Hfirst; reflexivity|].
    exists p0, payments. split; [reflexivity|]. split; [reflexivity|].
    split; [assumption|].
    intros p others Heq. injection Heq as <- _. cbn [payment]. exact Hh2.
Qed.

Lemma calculateOptimalPaymentDistribution_sound_witness :
  sum (map payment
         (Binary64.calculateOptimalPaymentDistribution
            sampleCards (ofZ 300) avalanche))
  <= ofZ 300 * (1 + Binary64.unitRoundoff) ^ (List.length sampleCards + 1).
Proof.
  assert (Hcards : Forall (fun c => 0 <= balance c /\ 0 <= minimumPayment c)
                     sampleCards).
  { repeat constructor; qc_eval. }
  assert (Hb : 0 <= ofZ 300) by qc_eval.
  pose proof (calculateOptimalPaymentDistribution_sound
                sampleCards (ofZ 300) avalanche Hcards Hb) as H.
  cbv zeta in H. exact (proj1 (proj2 (proj2 (proj2 (proj2 (proj2 H)))))).
Defined.

(** C1, as stated, fails in the arithmetic of the source.  One card with a
    balance of 831.12 and a minimum payment of 69.43, and a budget of
    1000: the first phase allocates 69.43; the cap of the second phase,
    831.12 - 69.43, is rounded, and 69.43 plus that cap is rounded to
    831.1200000000001, above the balance. *)
Lemma calculateOptimalPaymentDistribution_sound_counterexample :
  ~ (forall (cards : list CreditCard) (budget : number) (strategy : Strategy),
       Forall (fun c => 0 <= balance c /\ 0 <= minimumPayment c) cards ->
       0 <= budget ->
       Forall2 (fun c p => payment p <= balance c)
         (priorityOrder strategy cards)
         (Binary64.calculateOptimalPaymentDistribution cards budget strategy)).
Proof.
  intros H.
  specialize (H Binary64.oneCard (ofZ 1000) avalanche).
  assert (Hcards : Forall (fun c => 0 <= balance c /\ 0 <= minimumPayment c)
                     Binary64.oneCard).
  { repeat constructor; qc_eval. }
  assert (Hb : 0 <= ofZ 1000) by qc_eval.
  specialize (H Hcards Hb).
  vm_compute in H. inversion H as [|c p l l' Hp _]. apply Hp. reflexivity.
Qed.

End Binary64DistributionClaims.

(* ================================================================= *)
(** ** The rounding checked against the kernel's binary64 numbers *)

Section KernelFloats.

Import Floats.

Set Warnings "-inexact-float".

(** The source's arithmetic on the inputs of the counterexamples, in the
    kernel's own binary64 numbers and with [fl]. *)
Example fl_literal :
  Binary64.toQ 0.1%float = Some (this (Binary64.lit 1 10)).
Proof. vm_compute. reflexivity. Qed.

Example fl_payment :
  Binary64.toQ (69.43 + (831.12 - 69.43))%float
  = Some (this (Binary64.add (Binary64.lit 6943 100)
                  (Binary64.sub (Binary64.lit 83112 100)
                     (Binary64.lit 6943 100)))).
Proof. vm_compute. reflexivity. Qed.

Example fl_interest :
  Binary64.toQ (8000 * (15 / 100 / 12))%float
  = Some (this (Binary64.mul (ofZ 8000)
                  (Binary64.div (Binary64.div (ofZ 15) (ofZ 100)) (ofZ 12)))).
Proof. vm_compute. reflexivity. Qed.

Example fl_percent :
  Binary64.toQ (143632.36 / 718161.80 * 100)%float
  = Some (this (Binary64.mul
                  (Binary64.div (Binary64.lit 14363236 100)
                     (Binary64.lit 71816180 100)) (ofZ 100))).
Proof. vm_compute. reflexivity. Qed.

End KernelFloats.


(* ================================================================= *)
(** ** Where the rounding of the source shows *)

Section Binary64Remarks.

(** The payment on 100089 over 30 years without interest is 278.025 before
    it is rounded to cents.  The source's product by 100 falls below
    27802.5 and [Math.round] gives 27802, a payment of 278.02; the exact
    product is 27802.5 and gives 27803. *)
Remark payment_at_half_cent :
  ofZ 100089 / ofZ 360 = dec 278025 1000
  /\ Math_round (Binary64.mul (Binary64.div (ofZ 100089) (ofZ 360)) (ofZ 100))
     = ofZ 27802
  /\ Math_round (ofZ 100089 / ofZ 360 * ofZ 100) = ofZ 27803.
Proof. split; [|split]; qc_eval. Qed.

(** The first month's interest on 8000 at 15% is 100; as the source
    computes it, it is just below 100, so that a payment of 100 is above
    it. *)
Remark interest_below_payment :
  ofZ 8000 * (ofZ 15 / ofZ 100 / ofZ 12) = ofZ 100
  /\ Binary64.mul (ofZ 8000)
       (Binary64.div (Binary64.div (ofZ 15) (ofZ 100)) (ofZ 12)) < ofZ 100.
Proof. split; qc_eval. Qed.

(** A down payment of 143632.36 on a price of 718161.80 is 20% of it; as
    the source computes the percentage, it is just below 20. *)
Remark percent_below_20 :
  dec 14363236 100 / dec 71816180 100 * ofZ 100 = ofZ 20
  /\ Binary64.mul
       (Binary64.div (Binary64.lit 14363236 100) (Binary64.lit 71816180 100))
       (ofZ 100) < ofZ 20.
Proof. split; qc_eval. Qed.

(** With a balance of 5000 and a budget of 831.12, the card of
    [oneCard]'s minimum payment is paid 831.1200000000001, above the
    budget. *)
Remark payment_above_budget :
  Binary64.lit 83112 100
  < sum (map payment
           (Binary64.calculateOptimalPaymentDistribution
              [ mkCreditCard "1" (ofZ 5000) (ofZ 5000) (Binary64.lit 6943 100)
                  (ofZ 18) ]
              (Binary64.lit 83112 100) avalanche)).
Proof. qc_eval. Qed.

End Binary64Remarks.

(* ================================================================= *)
(** * Further properties of the engine *)

Import Savings Notions.

(* ================================================================= *)
(** ** Utilization, minimum payment, monthly interest *)

Section CreditRatios.

Lemma Math_round_nonneg (x : number) : 0 <= x -> 0 <= Math_round x.
Proof.
  intros H. pose proof (Math_round_mono 0 x H) as Hm.
  change 0 with (ofZ 0) in Hm at 1. rewrite Math_round_ofZ in Hm. exact Hm.
Qed.

Lemma Qcdiv_unit_interval (a b : number) :
  0 < b -> 0 <= a -> a <= b -> 0 <= a / b /\ a / b <= 1.
Proof.
  intros Hb Ha Hab.
  assert (Hb0 : b <> 0) by qlra.
  assert (Hinv : 0 < / b).
  { apply Qcnot_le_lt. intros Hle.
    assert (H1 : b * / b = 1) by (apply Qcmult_inv_r; assumption).
    assert (H2 : 0 <= b * (- / b)).
    { apply Qcmult_nonneg; [apply Qclt_le_weak; assumption|]. qlra. }
    assert (H3 : b * (- / b) = - (b * / b)) by ring.
    rewrite H3, H1 in H2. qlra. }
  unfold Qcdiv. split.
  - apply Qcmult_nonneg; [assumption|apply Qclt_le_weak; assumption].
  - assert (H1 : b * / b = 1) by (apply Qcmult_inv_r; assumption).
    rewrite <- H1. apply Qcmult_le_compat_r;
      [assumption|apply Qclt_le_weak; assumption].
Qed.

Lemma calculateCreditUtilization_bounds (balance creditLimit : number) :
  0 < creditLimit -> 0 <= balance -> balance <= creditLimit ->
  0 <= calculateCreditUtilization balance creditLimit
  /\ calculateCreditUtilization balance creditLimit <= ofZ 100.
Proof.
  unfold calculateCreditUtilization. intros Hl Hb Hbl.
  destruct (Qclt_le_dec 0 creditLimit) as [_|Hle]; [|exfalso; qlra].
  destruct (Qcdiv_unit_interval balance creditLimit Hl Hb Hbl) as [H0 H1].
  set (u := balance / creditLimit) in *. clearbody u.
  assert (Hlo : 0 <= Math_round (u * ofZ 100 * ofZ 100)).
  { apply Math_round_nonneg. qlra. }
  assert (Hhi : Math_round (u * ofZ 100 * ofZ 100) <= ofZ 10000).
  { rewrite <- (Math_round_ofZ 10000). apply Math_round_mono. qlra. }
  set (m := Math_round (u * ofZ 100 * ofZ 100)) in *. clearbody m.
  split; qlra.
Qed.

(** X1.  [calculateCreditUtilization] is 0 when the credit limit is not
    positive, and for a balance between 0 and a positive limit it is a
    percentage between 0 and 100. *)
Theorem calculateCreditUtilization_range (balance creditLimit : number) :
  (creditLimit <= 0 -> calculateCreditUtilization balance creditLimit = 0)
  /\ (0 < creditLimit -> 0 <= balance -> balance <= creditLimit ->
      0 <= calculateCreditUtilization balance creditLimit
      /\ calculateCreditUtilization balance creditLimit <= ofZ 100).
Proof.
  split.
  - unfold calculateCreditUtilization. intros H.
    destruct (Qclt_le_dec 0 creditLimit) as [Hlt|_]; [|reflexivity].
    exfalso. qlra.
  - apply calculateCreditUtilization_bounds.
Qed.

Lemma calculateCreditUtilization_range_witness :
  calculateCreditUtilization (ofZ 3000) 0 = 0
  /\ 0 <= calculateCreditUtilization (ofZ 3000) (ofZ 10000)
  /\ calculateCreditUtilization (ofZ 3000) (ofZ 10000) <= ofZ 100.
Proof.
  split.
  - apply (proj1 (calculateCreditUtilization_range (ofZ 3000) 0)). qc_eval.
  - apply (proj2 (calculateCreditUtilization_range (ofZ 3000) (ofZ 10000)));
      qc_eval.
Defined.

Lemma fold_left_sum {A : Type} (f : A -> number) (l : list A) (acc : number) :
  fold_left (fun sum a => sum + f a) l acc = acc + sum (map f l).
Proof.
  revert acc. induction l as [|a l IH]; intros acc; cbn [fold_left map sum].
  - ring.
  - rewrite IH. ring.
Qed.

Lemma sum_perm (l l' : list number) : Permutation l l' -> sum l = sum l'.
Proof.
  induction 1 as [|x l l' _ IH|x y l|l l' l'' _ IH1 _ IH2]; cbn [sum].
  - reflexivity.
  - now rewrite IH.
  - ring.
  - now rewrite IH1.
Qed.

Lemma sum_le (l l' : list number) : Forall2 Qcle l l' -> sum l <= sum l'.
Proof.
  induction 1 as [|x y l l' Hxy _ IH]; cbn [sum]; [apply Qcle_refl|].
  set (a := sum l) in *. set (b := sum l') in *. clearbody a b. qlra.
Qed.

Lemma sum_nonneg (l : list number) : Forall (Qcle 0) l -> 0 <= sum l.
Proof.
  induction 1 as [|x l Hx _ IH]; cbn [sum]; [apply Qcle_refl|].
  set (a := sum l) in *. clearbody a. qlra.
Qed.

(** X2.  [calculateTotalCreditUtilization] is 0 for no cards and when no
    card has a positive limit; for a single card it is the utilization of
    that card; and it is between 0 and 100 when every balance is between 0
    and its limit and the limits add up to a positive amount. *)
Theorem calculateTotalCreditUtilization_total (cards : list CreditCard) :
  calculateTotalCreditUtilization [] = 0
  /\ (Forall (fun c => creditLimit c <= 0) cards ->
      calculateTotalCreditUtilization cards = 0)
  /\ (forall c, calculateTotalCreditUtilization [c]
                = calculateCreditUtilization (balance c) (creditLimit c))
  /\ (Forall (fun c => 0 <= balance c /\ balance c <= creditLimit c) cards ->
      0 < sum (map creditLimit cards) ->
      0 <= calculateTotalCreditUtilization cards
      /\ calculateTotalCreditUtilization cards <= ofZ 100).
Proof.
  unfold calculateTotalCreditUtilization. rewrite !fold_left_sum.
  assert (H0 : forall x : number, 0 + x = x) by (intros; ring).
  split; [reflexivity|]. split; [|split].
  - intros Hc. rewrite !H0. unfold calculateCreditUtilization.
    destruct (Qclt_le_dec 0 (sum (map creditLimit cards))) as [Hl|_];
      [|reflexivity].
    exfalso. revert Hl. apply Qcle_not_lt.
    induction Hc as [|c l Hc _ IH]; cbn [map sum]; [apply Qcle_refl|].
    set (t := sum (map creditLimit l)) in *. clearbody t. qlra.
  - intros c. cbn [fold_left]. rewrite !H0. reflexivity.
  - intros Hc Hl. rewrite !H0.
    apply calculateCreditUtilization_bounds; [assumption| |].
    + apply sum_nonneg. apply Forall_map.
      eapply Forall_impl; [|exact Hc]. intros c [H _]. exact H.
    + apply sum_le. clear Hl. induction Hc as [|c l [_ H] _ IH]; cbn [map];
        constructor; assumption.
Qed.

Lemma calculateTotalCreditUtilization_total_witness :
  0 <= calculateTotalCreditUtilization sampleCards
  /\ calculateTotalCreditUtilization sampleCards <= ofZ 100.
Proof.
  pose proof (calculateTotalCreditUtilization_total sampleCards)
    as (_ & _ & _ & Hrange).
  apply Hrange; [repeat constructor; qc_eval|qc_eval].
Defined.

Lemma Math_max_cases (a b : number) :
  (Math_max a b = a /\ b <= a) \/ (Math_max a b = b /\ a <= b).
Proof.
  unfold Math_max. destruct (Qclt_le_dec a b) as [H|H].
  - right. split; [reflexivity|apply Qclt_le_weak; assumption].
  - left. split; [reflexivity|assumption].
Qed.

(** X4.  [calculateMonthlyInterest] is within half a cent of
    [balance * rate/100/12]; it is 0 for a zero balance or a zero rate,
    never negative for a balance and a rate that are not negative, and it
    does not decrease when the balance or the rate goes up. *)
Theorem calculateMonthlyInterest_monotone
    (balance balance' rate rate' : number) :
  calculateMonthlyInterest 0 rate = 0
  /\ calculateMonthlyInterest balance 0 = 0
  /\ absDiff (calculateMonthlyInterest balance rate)
             (balance * (rate / ofZ 100 / ofZ 12)) <= dec 5 1000
  /\ (0 <= balance -> balance <= balance' -> 0 <= rate -> rate <= rate' ->
      0 <= calculateMonthlyInterest balance rate
      /\ calculateMonthlyInterest balance rate
         <= calculateMonthlyInterest balance' rate').
Proof.
  unfold calculateMonthlyInterest.
  fold (toCents (0 * (rate / ofZ 100 / ofZ 12))).
  fold (toCents (balance * (0 / ofZ 100 / ofZ 12))).
  fold (toCents (balance * (rate / ofZ 100 / ofZ 12))).
  fold (toCents (balance' * (rate' / ofZ 100 / ofZ 12))).
  split; [|split; [|split]].
  - assert (H : 0 * (rate / ofZ 100 / ofZ 12) = 0) by ring.
    rewrite H. exact toCents_0.
  - assert (H : balance * (0 / ofZ 100 / ofZ 12) = 0) by (unfold Qcdiv; ring).
    rewrite H. exact toCents_0.
  - pose proof (toCents_bounds (balance * (rate / ofZ 100 / ofZ 12))) as [H1 H2].
    set (x := balance * (rate / ofZ 100 / ofZ 12)) in *.
    set (y := toCents x) in *. clearbody x y.
    apply absDiff_le; qlra.
  - intros Hb Hbb Hr Hrr.
    assert (Hm : 0 <= rate / ofZ 100 / ofZ 12) by (apply monthlyRate_nonneg; assumption).
    assert (Hm' : rate / ofZ 100 / ofZ 12 <= rate' / ofZ 100 / ofZ 12) by qlra.
    split.
    + apply toCents_nonneg, Qcmult_nonneg; assumption.
    + apply toCents_mono.
      apply Qcle_trans with (balance * (rate' / ofZ 100 / ofZ 12)).
      * rewrite !(Qcmult_comm balance). apply Qcmult_le_compat_r; assumption.
      * apply Qcmult_le_compat_r; [assumption|]. qlra.
Qed.

Lemma calculateMonthlyInterest_monotone_witness :
  calculateMonthlyInterest (ofZ 1000) (ofZ 18)
  <= calculateMonthlyInterest (ofZ 2000) (ofZ 20).
Proof.
  apply (calculateMonthlyInterest_monotone (ofZ 1000) (ofZ 2000) (ofZ 18) (ofZ 20));
    qc_eval.
Defined.

End CreditRatios.

(* ================================================================= *)
(** ** The two debt orders *)

Section DebtOrders.

Context {A : Type} (compareFn : A -> A -> number) (key : A -> number).
Hypothesis compareFn_key : forall a b, 0 < compareFn a b <-> key b < key a.

Lemma sort_insert_sorted (x : A) (l : list A) :
  StronglySorted (fun a b => key a <= key b) l ->
  StronglySorted (fun a b => key a <= key b) (sort_insert compareFn x l).
Proof.
  induction 1 as [|y l Hs IH Hy]; cbn.
  - constructor; constructor.
  - destruct (Qclt_le_dec 0 (compareFn x y)) as [Hlt|Hge].
    + apply compareFn_key in Hlt. constructor; [assumption|].
      eapply Permutation_Forall; [symmetry; apply sort_insert_perm|].
      constructor; [apply Qclt_le_weak; assumption|assumption].
    + assert (Hxy : key x <= key y).
      { apply Qcnot_lt_le. intros Hlt. apply compareFn_key in Hlt.
        revert Hlt. apply Qcle_not_lt. assumption. }
      constructor; [constructor; assumption|].
      constructor; [assumption|].
      eapply Forall_impl; [|exact Hy].
      intros c Hc. cbn in Hc. eapply Qcle_trans; eassumption.
Qed.

Lemma sort_sorted (l : list A) :
  StronglySorted (fun a b => key a <= key b) (sort compareFn l).
Proof.
  induction l as [|x l IH]; cbn; [constructor|].
  apply sort_insert_sorted, IH.
Qed.

Lemma sort_insert_withKey (k : number) (x : A) (l : list A) :
  withKey key k (sort_insert compareFn x l) = withKey key k (x :: l).
Proof.
  unfold withKey. induction l as [|y l IH]; [reflexivity|].
  cbn [sort_insert]. destruct (Qclt_le_dec 0 (compareFn x y)) as [Hlt|Hge];
    [|reflexivity].
  apply compareFn_key in Hlt. cbn [filter] in *. rewrite IH.
  destruct (Qc_eq_dec (key x) k) as [Hx|Hx], (Qc_eq_dec (key y) k) as [Hy|Hy];
    try reflexivity.
  exfalso. rewrite Hx, Hy in Hlt. revert Hlt. apply Qcle_not_lt, Qcle_refl.
Qed.

(** The sort is stable: elements with the same key keep their order. *)
Lemma sort_stable (k : number) (l : list A) :
  withKey key k (sort compareFn l) = withKey key k l.
Proof.
  induction l as [|x l IH]; [reflexivity|].
  cbn [sort fold_right]. rewrite sort_insert_withKey.
  unfold withKey in *. cbn [filter]. fold (sort compareFn l). rewrite IH.
  reflexivity.
Qed.

End DebtOrders.

Section DebtOrderClaims.

(** X5.  [calculateDebtAvalanche] returns the same cards (a permutation of
    its input), every card before the cards of lower or equal rate, and
    cards of the same rate in the order they came in. *)
Theorem calculateDebtAvalanche_order (cards : list CreditCard) :
  Permutation (calculateDebtAvalanche cards) cards
  /\ StronglySorted
       (fun a b => Credit.interestRate b <= Credit.interestRate a)
       (calculateDebtAvalanche cards)
  /\ forall rate,
       withKey Credit.interestRate rate (calculateDebtAvalanche cards)
       = withKey Credit.interestRate rate cards.
Proof.
  assert (Hkey : forall a b : CreditCard,
             0 < Credit.interestRate b - Credit.interestRate a
             <-> - Credit.interestRate b < - Credit.interestRate a).
  { intros a b. split; intros H; qlra. }
  split; [apply sort_perm|]. split.
  - pose proof (sort_sorted _ _ Hkey cards) as Hs.
    unfold calculateDebtAvalanche.
    induction Hs as [|c l _ IH Hc]; constructor; [assumption|].
    eapply Forall_impl; [|exact Hc]. intros d Hd. cbn in Hd. qlra.
  - intros rate.
    pose proof (sort_stable _ _ Hkey (- rate) cards) as Hst.
    unfold calculateDebtAvalanche, withKey in *.
    assert (Hf : forall l : list CreditCard,
               filter (fun a => if Qc_eq_dec (- Credit.interestRate a) (- rate)
                                then true else false) l
               = filter (fun a => if Qc_eq_dec (Credit.interestRate a) rate
                                  then true else false) l).
    { intros l. apply filter_ext. intros a.
      destruct (Qc_eq_dec (- Credit.interestRate a) (- rate)) as [H|H],
               (Qc_eq_dec (Credit.interestRate a) rate) as [H'|H'];
        try reflexivity; exfalso.
      - apply H'. rewrite <- (Qcopp_involutive (Credit.interestRate a)), H.
        apply Qcopp_involutive.
      - apply H. now rewrite H'. }
    rewrite <- !Hf. exact Hst.
Qed.

(** X6.  [calculateDebtSnowball] returns the same cards, every card before
    the cards of higher or equal balance, and cards of the same balance in
    the order they came in. *)
Theorem calculateDebtSnowball_order (cards : list CreditCard) :
  Permutation (calculateDebtSnowball cards) cards
  /\ StronglySorted (fun a b => balance a <= balance b)
       (calculateDebtSnowball cards)
  /\ forall b,
       withKey balance b (calculateDebtSnowball cards) = withKey balance b cards.
Proof.
  assert (Hkey : forall a b : CreditCard,
             0 < balance a - balance b <-> balance b < balance a).
  { intros a b. split; intros H; qlra. }
  split; [apply sort_perm|]. split.
  - apply (sort_sorted _ _ Hkey).
  - intros b. apply (sort_stable _ _ Hkey).
Qed.

End DebtOrderClaims.

(* ================================================================= *)
(** ** More on the payment distribution *)

Section DistributionMore.

(** Whatever the inputs, a first-phase allocation names its card and is at
    most the card's minimum payment and at most its balance. *)
Lemma allocateMinimums_capped (cards : list CreditCard) (budget : number) :
  Forall2 (fun c p => cardId p = id c
                      /\ payment p <= minimumPayment c
                      /\ payment p <= balance c)
          cards (fst (allocateMinimums cards budget)).
Proof.
  revert budget. induction cards as [|card rest IH]; intros budget; cbn.
  - constructor.
  - specialize (IH (budget - Math_min (Math_min (minimumPayment card) budget)
                                      (balance card))).
    destruct (allocateMinimums rest _) as [payments remaining]. cbn in *.
    constructor; [|exact IH]. cbn. split; [reflexivity|]. split.
    + eapply Qcle_trans; [apply Math_min_le_l|apply Math_min_le_l].
    + apply Math_min_le_r.
Qed.

(** The second phase changes the head allocation only. *)
Lemma calculateOptimalPaymentDistribution_tail
    (cards : list CreditCard) (budget : number) (strategy : Strategy) :
  tl (calculateOptimalPaymentDistribution cards budget strategy)
  = tl (fst (allocateMinimums (priorityOrder strategy cards) budget)).
Proof.
  unfold calculateOptimalPaymentDistribution.
  change (match strategy with
          | avalanche => calculateDebtAvalanche cards
          | snowball => calculateDebtSnowball cards
          end) with (priorityOrder strategy cards).
  pose proof (allocateMinimums_capped (priorityOrder strategy cards) budget) as Hc.
  destruct (allocateMinimums (priorityOrder strategy cards) budget)
    as [payments remaining]. cbn [fst] in *.
  destruct Hc as [|first p0 sorted payments (Hid & _) _]; [reflexivity|].
  destruct (Qclt_le_dec 0 remaining); [|reflexivity].
  rewrite addToFirst_head by assumption. reflexivity.
Qed.

(** X7.  Whatever the inputs, a card that is not first in priority order is
    never allocated more than its minimum payment (nor more than its
    balance): budget that the first card cannot absorb is not passed on. *)
Theorem calculateOptimalPaymentDistribution_others_capped
    (cards : list CreditCard) (budget : number) (strategy : Strategy) :
  Forall2 (fun c p => cardId p = id c
                      /\ payment p <= minimumPayment c
                      /\ payment p <= balance c)
          (tl (priorityOrder strategy cards))
          (tl (calculateOptimalPaymentDistribution cards budget strategy)).
Proof.
  rewrite calculateOptimalPaymentDistribution_tail.
  pose proof (allocateMinimums_capped (priorityOrder strategy cards) budget) as Hc.
  destruct Hc as [|? ? ? ? _ Hrest]; [constructor|exact Hrest].
Qed.

Lemma map_eq_Forall2 {A B : Type} (f : A -> number) (g : B -> number)
    (l : list A) (l' : list B) :
  map g l' = map f l -> Forall2 (fun a b => f a <= g b) l l'.
Proof.
  revert l'. induction l as [|a l IH]; intros [|b l'] H;
    try discriminate H; constructor.
  - cbn [map] in H. injection H as Hhd _. rewrite Hhd. apply Qcle_refl.
  - apply IH. cbn [map] in H. now injection H.
Qed.

Lemma Math_min_absorb (a b c : number) :
  Math_min a c <= b -> Math_min (Math_min a b) c = Math_min a c.
Proof.
  unfold Math_min.
  destruct (Qclt_le_dec c a), (Qclt_le_dec b a); intros H;
    repeat match goal with
           | |- context [Qclt_le_dec ?x ?y] => destruct (Qclt_le_dec x y)
           end; try reflexivity; qlra.
Qed.

(** With a budget that covers them, the first phase allocates to each card
    the smaller of its minimum payment and its balance. *)
Lemma allocateMinimums_covered (cards : list CreditCard) (budget : number) :
  Forall (fun c => 0 <= balance c /\ 0 <= minimumPayment c) cards ->
  sum (map (fun c => Math_min (minimumPayment c) (balance c)) cards) <= budget ->
  map payment (fst (allocateMinimums cards budget))
  = map (fun c => Math_min (minimumPayment c) (balance c)) cards.
Proof.
  intros Hcards. revert budget.
  induction Hcards as [|card rest [Hbal Hmin] Hrest IH]; intros budget Hb;
    [reflexivity|].
  cbn [allocateMinimums map sum] in *.
  set (need := Math_min (minimumPayment card) (balance card)) in *.
  assert (Hneed : 0 <= need) by (apply Math_min_glb; assumption).
  assert (Hsum : 0 <= sum (map (fun c => Math_min (minimumPayment c) (balance c)) rest)).
  { apply sum_nonneg, Forall_map. eapply Forall_impl; [|exact Hrest].
    intros c [H1 H2]. apply Math_min_glb; assumption. }
  assert (Heq : Math_min (Math_min (minimumPayment card) budget) (balance card)
                = need).
  { apply Math_min_absorb. fold need.
    set (t := sum _) in *. clearbody t need. qlra. }
  rewrite Heq. specialize (IH (budget - need)).
  destruct (allocateMinimums rest (budget - need)) as [payments remaining].
  cbn [fst map payment] in *. f_equal. apply IH.
  set (t := sum _) in *. clearbody t need. qlra.
Qed.

(** X8.  For cards with non-negative balances and minimum payments and a
    budget above the sum of what the cards require (for each the smaller
    of its minimum payment and its balance) by [slack] or more, every card
    is allocated at least what it requires; and, within [slack], the whole
    budget is allocated unless the first card in priority order is paid in
    full. *)
Theorem calculateOptimalPaymentDistribution_minimums_met
    (cards : list CreditCard) (budget : number) (strategy : Strategy) :
  Forall (fun c => 0 <= balance c /\ 0 <= minimumPayment c) cards ->
  sum (map (fun c => Math_min (minimumPayment c) (balance c)) cards) + slack
  <= budget ->
  Forall2 (fun c p => Math_min (minimumPayment c) (balance c) <= payment p)
          (priorityOrder strategy cards)
          (calculateOptimalPaymentDistribution cards budget strategy)
  /\ (forall first rest, priorityOrder strategy cards = first :: rest ->
        absDiff
          (sum (map payment
                  (calculateOptimalPaymentDistribution cards budget strategy)))
          budget <= slack
        \/ exists p others,
             calculateOptimalPaymentDistribution cards budget strategy
             = p :: others
             /\ absDiff (payment p) (balance first) <= slack).
Proof.
  intros Hcards Hslack.
  assert (Hbudget :
            sum (map (fun c => Math_min (minimumPayment c) (balance c)) cards)
            <= budget).
  { set (t := sum _) in *. clearbody t. unfold slack in Hslack. qlra. }
  clear Hslack.
  assert (Hb : 0 <= budget).
  { eapply Qcle_trans; [|exact Hbudget]. apply sum_nonneg, Forall_map.
    eapply Forall_impl; [|exact Hcards].
    intros c [H1 H2]. apply Math_min_glb; assumption. }
  pose proof (priorityOrder_perm strategy cards) as Hperm.
  assert (Hsorted : Forall (fun c => 0 <= balance c /\ 0 <= minimumPayment c)
                      (priorityOrder strategy cards)).
  { eapply Permutation_Forall; [symmetry; exact Hperm|assumption]. }
  assert (Hbudget' :
            sum (map (fun c => Math_min (minimumPayment c) (balance c))
                   (priorityOrder strategy cards)) <= budget).
  { rewrite (sum_perm _ _ (Permutation_map _ Hperm)). assumption. }
  pose proof (allocateMinimums_covered _ budget Hsorted Hbudget') as Hcov.
  pose proof (allocateMinimums_spec _ budget Hsorted Hb) as (Hall & Hrem & Hsum).
  pose proof (calculateOptimalPaymentDistribution_shape cards budget strategy
                Hcards Hb) as Hshape.
  set (sorted := priorityOrder strategy cards) in *.
  set (result := calculateOptimalPaymentDistribution cards budget strategy) in *.
  destruct (allocateMinimums sorted budget) as [minimums remaining].
  cbn [fst snd] in *. clearbody sorted result. clear Hperm Hbudget' Hbudget.
  destruct Hall as [|first p0 rest payments (Hid & Hp0 & Hp1) Hrest].
  - rewrite Hshape. split; [constructor|]. intros ? ? Hf. discriminate Hf.
  - rewrite Hshape. cbn [map] in Hcov. injection Hcov as Hc0 Hcrest.
    split.
    + constructor.
      * cbn [payment]. rewrite <- Hc0. apply Math_min_glb; [|assumption].
        clear Hsum. qlra.
      * apply map_eq_Forall2. assumption.
    + intros first' rest' Heq. injection Heq as <- <-.
      cbn [map sum payment] in *.
      unfold Math_min at 1.
      destruct (Qclt_le_dec (balance first) (payment p0 + remaining)) as [Hlt|Hle].
      * right. eexists _, _. split; [reflexivity|]. cbn [payment].
        unfold Math_min.
        destruct (Qclt_le_dec (balance first) (payment p0 + remaining));
          [|exfalso; qlra].
        unfold slack. apply absDiff_le; qlra.
      * left. set (t := sum (map payment payments)) in *. clearbody t.
        unfold slack. apply absDiff_le; qlra.
Qed.

Lemma calculateOptimalPaymentDistribution_minimums_met_witness :
  Forall2 (fun c p => Math_min (minimumPayment c) (balance c) <= payment p)
          (priorityOrder avalanche sampleCards)
          (calculateOptimalPaymentDistribution sampleCards (ofZ 300) avalanche).
Proof.
  apply (calculateOptimalPaymentDistribution_minimums_met
           sampleCards (ofZ 300) avalanche).
  - repeat constructor; qc_eval.
  - qc_eval.
Defined.

End DistributionMore.

(* ================================================================= *)
(** ** More on the payoff time *)

Section PayoffMore.

Lemma Qfloor_unique (q : Q) (z : Z) :
  (inject_Z z <= q)%Q -> (q < inject_Z (z + 1))%Q -> Qfloor q = z.
Proof.
  intros Hle Hlt. apply Z.le_antisymm.
  - assert (H : (Qfloor q < z + 1)%Z); [|lia].
    rewrite Zlt_Qlt. eapply Qle_lt_trans; [apply Qfloor_le|exact Hlt].
  - rewrite <- (Qfloor_Z z). apply Qfloor_resp_le. exact Hle.
Qed.

Lemma Math_round_plus_ofZ (k : Z) (x : number) :
  Math_round (ofZ k + x) = ofZ k + Math_round x.
Proof.
  unfold Math_round.
  assert (H : Qfloor (this (ofZ k + x) + (1 # 2))
              = (k + Qfloor (this x + (1 # 2)))%Z).
  { apply Qfloor_unique.
    - pose proof (Qfloor_le (this x + (1 # 2))) as Hle.
      rewrite this_plus, this_ofZ, inject_Z_plus. lra.
    - pose proof (Qlt_floor (this x + (1 # 2))) as Hlt.
      rewrite this_plus, this_ofZ, !inject_Z_plus.
      rewrite inject_Z_plus in Hlt. lra. }
  rewrite H. apply Qc_is_canon.
  rewrite this_plus, !this_ofZ, inject_Z_plus. reflexivity.
Qed.

Lemma toCents_plus_cents (b x : number) :
  wholeCents b -> toCents (b + x) = b + toCents x.
Proof.
  intros [k Hk]. subst b. unfold toCents.
  assert (H : (ofZ k / ofZ 100 + x) * ofZ 100 = ofZ k + x * ofZ 100).
  { field. qc_eval. }
  rewrite H, Math_round_plus_ofZ. field. qc_eval.
Qed.

Lemma toCents_wholeCents (x : number) : wholeCents (toCents x).
Proof.
  unfold toCents, Math_round. eexists. reflexivity.
Qed.

Lemma wholeCents_fixed (x : number) : wholeCents x -> toCents x = x.
Proof.
  intros H. pose proof (toCents_plus_cents x 0 H) as Hp.
  rewrite toCents_0 in Hp.
  assert (H0 : x + 0 = x) by ring. rewrite H0 in Hp. exact Hp.
Qed.

(** X9.  For a positive balance and a positive payment, the total paid
    returned by [calculatePayoffTime] is the balance plus the total
    interest it returns, within one cent (and [slack]): the two are
    rounded to cents separately.  Or both are [Infinity]. *)
Theorem calculatePayoffTime_totalPaid (balance rate payment : number) :
  0 < balance -> 0 < payment ->
  match totalPaid (calculatePayoffTime balance rate payment),
        totalInterest (calculatePayoffTime balance rate payment) with
  | Finite p, Finite i => absDiff p (balance + i) <= dec 1 100 + slack
  | Infinity, Infinity => True
  | _, _ => False
  end.
Proof.
  intros Hb Hp. unfold calculatePayoffTime.
  destruct (Qclt_le_dec 0 payment) as [_|H]; [|exfalso; qlra].
  destruct (Qclt_le_dec 0 balance) as [_|H]; [|exfalso; qlra].
  destruct (Qclt_le_dec (calculateMonthlyInterest balance rate) payment);
    cbn [totalPaid totalInterest]; [|exact I].
  match goal with |- context [loopInterest ?s] => set (T := loopInterest s) end.
  fold (toCents (balance + T)). fold (toCents T).
  pose proof (toCents_bounds (balance + T)) as [H1 H2].
  pose proof (toCents_bounds T) as [H3 H4].
  set (x := toCents (balance + T)) in *. set (y := toCents T) in *.
  clearbody x y T. unfold slack. apply absDiff_le; qlra.
Qed.

Lemma calculatePayoffTime_totalPaid_witness :
  match totalPaid (calculatePayoffTime (ofZ 5000) (ofZ 18) (ofZ 200)),
        totalInterest (calculatePayoffTime (ofZ 5000) (ofZ 18) (ofZ 200)) with
  | Finite p, Finite i => absDiff p (ofZ 5000 + i) <= dec 1 100 + slack
  | Infinity, Infinity => True
  | _, _ => False
  end.
Proof.
  apply (calculatePayoffTime_totalPaid (ofZ 5000) (ofZ 18) (ofZ 200)).
  - qc_eval.
  - qc_eval.
Defined.

End PayoffMore.

(* ================================================================= *)
(** ** The minimum payment *)

Section MinimumPayment.

(** X3.  [calculateMinimumPayment] is a whole number of cents within half a
    cent (and [slack]) of the larger of the percentage of the balance and
    the flat minimum; and it is never below a flat minimum that is itself
    a whole number of cents. *)
Theorem calculateMinimumPayment_floor
    (balance minimumPercent minimumAmount : number) :
  let percentagePayment := balance * (minimumPercent / ofZ 100) in
  let result := calculateMinimumPayment balance minimumPercent minimumAmount in
  wholeCents result
  /\ absDiff result (Math_max percentagePayment minimumAmount)
     <= dec 5 1000 + slack
  /\ (wholeCents minimumAmount -> minimumAmount <= result).
Proof.
  cbv zeta. unfold calculateMinimumPayment.
  fold (toCents (Math_max (balance * (minimumPercent / ofZ 100)) minimumAmount)).
  set (p := balance * (minimumPercent / ofZ 100)).
  split; [apply toCents_wholeCents|]. split.
  - pose proof (toCents_bounds (Math_max p minimumAmount)) as [H1 H2].
    set (m := Math_max p minimumAmount) in *. set (c := toCents m) in *.
    clearbody m c. unfold slack. apply absDiff_le; qlra.
  - intros Hw. rewrite <- (wholeCents_fixed minimumAmount Hw) at 1.
    apply toCents_mono.
    destruct (Math_max_cases p minimumAmount) as [[He Hle]|[He Hle]];
      rewrite He; [exact Hle|apply Qcle_refl].
Qed.

Lemma calculateMinimumPayment_floor_witness :
  ofZ 25 <= calculateMinimumPayment (ofZ 1000) (ofZ 2) (ofZ 25).
Proof.
  pose proof (calculateMinimumPayment_floor (ofZ 1000) (ofZ 2) (ofZ 25)) as H.
  cbv zeta in H. apply (proj2 (proj2 H)). exists 2500%Z. qc_eval.
Defined.

End MinimumPayment.

Section PayoffCompare.

Variable r : number.
Hypothesis r_nonneg : 0 <= r.



End PayoffCompare.

Section PayoffCompareClaims.









End PayoffCompareClaims.

(* ================================================================= *)
(** ** More on the payment schedule *)

Section ScheduleMore.

Variables r p : number.

(** Every entry pays the fixed amount, and the balance only goes down,
    never below 0: an entry is recorded only when it pays off principal. *)
Lemma scheduleLoop_balances (count : nat) (B : number) (d : Date) :
  Forall (fun e => amount e = p /\ 0 <= principalPaid e
                   /\ 0 <= Credit.remainingBalance e)
         (scheduleLoop r p count B d)
  /\ nonIncreasing
       (toCents B :: map Credit.remainingBalance (scheduleLoop r p count B d)).
Proof.
  revert B d. induction count as [|count IH]; intros B d; cbn [scheduleLoop].
  - split; [constructor|exact I].
  - destruct (Qclt_le_dec (dec 1 100) B) as [HB|HB];
      [|split; [constructor|exact I]].
    match goal with |- context [Qclt_le_dec 0 ?a] =>
      destruct (Qclt_le_dec 0 a) as [Hpp|Hpp] end;
      [|split; [constructor|exact I]].
    pose proof (Math_min_le_r (p - B * r) B) as Hle.
    set (pp := Math_min (p - B * r) B) in *. clearbody pp.
    destruct (IH (B - pp)
                (newDate (getFullYear d) (getMonth d + 1) (getDate d)))
      as [IH1 IH2].
    split.
    + constructor; [|exact IH1].
      cbn [amount principalPaid Credit.remainingBalance].
      split; [reflexivity|].
      split; apply toCents_nonneg; qlra.
    + cbn [map Credit.remainingBalance nonIncreasing].
      split; [apply toCents_mono; qlra|exact IH2].
Qed.

Hypothesis r_nonneg : 0 <= r.


End ScheduleMore.

Section ScheduleMoreClaims.

(** X12.  Whatever the inputs, every entry of [generatePaymentSchedule] has
    the monthly payment as its amount and a principal paid and a remaining
    balance that are not negative, and the remaining balance never
    increases: from the starting balance (rounded) to the first entry, and
    from each entry to the next. *)
Theorem generatePaymentSchedule_balances
    (now : Date) (balance rate payment : number) (maxMonths : nat) :
  Forall (fun e => amount e = payment /\ 0 <= principalPaid e
                   /\ 0 <= Credit.remainingBalance e)
         (generatePaymentSchedule now balance rate payment maxMonths)
  /\ nonIncreasing
       (toCents balance
        :: map Credit.remainingBalance
             (generatePaymentSchedule now balance rate payment maxMonths)).
Proof. apply scheduleLoop_balances. Qed.



End ScheduleMoreClaims.

(* ================================================================= *)
(** ** More on the amortization schedule *)

Section AmortizationMore.

Variables r M : number.



Hypothesis r_nonneg : 0 <= r.
Hypothesis M_nonneg : 0 <= M.


End AmortizationMore.

Section AmortizationMoreClaims.






End AmortizationMoreClaims.

(* ================================================================= *)
(** ** Affordability against the payment formula *)

Section AffordabilityRoundTrip.





End AffordabilityRoundTrip.

(* ================================================================= *)
(** ** The assembled mortgage results *)

Section MortgageResultsFacts.


Lemma calculatePMI_toCents (loanAmount pmiRate : number) :
  calculatePMI loanAmount pmiRate
  = toCents (loanAmount * (pmiRate / ofZ 100) / ofZ 12).
Proof. reflexivity. Qed.



Lemma calculateMortgage_nonneg (inputs : MortgageInputs) :
  0 < loanAmount inputs ->
  0 <= downPayment inputs -> downPayment inputs <= loanAmount inputs ->
  0 <= Mortgage.interestRate inputs -> (0 < loanTermYears inputs)%Z ->
  0 <= propertyTax inputs -> 0 <= homeInsurance inputs ->
  0 <= pmiRateOrDefault inputs ->
  0 <= monthlyPayment (calculateMortgage inputs)
  /\ 0 <= monthlyTax (calculateMortgage inputs)
  /\ 0 <= monthlyInsurance (calculateMortgage inputs)
  /\ 0 <= monthlyPMI (calculateMortgage inputs)
  /\ monthlyPayment (calculateMortgage inputs)
     <= totalMonthlyPayment (calculateMortgage inputs).
Proof.
  unfold calculateMortgage.
  cbn [monthlyPayment monthlyTax monthlyInsurance monthlyPMI totalMonthlyPayment].
  fold (pmiRateOrDefault inputs).
  intros Hl Hd0 Hd1 Hr Ht Htax Hins Hpmi.
  assert (HM : 0 <= calculateMonthlyPayment
                      (loanAmount inputs - downPayment inputs)
                      (Mortgage.interestRate inputs) (loanTermYears inputs)).
  { apply calculateMonthlyPayment_nonneg; [qlra|assumption|assumption]. }
  assert (HT : 0 <= calculateMonthlyPropertyTax (propertyTax inputs)).
  { apply toCents_nonneg. qlra. }
  assert (HI : 0 <= calculateMonthlyInsurance (homeInsurance inputs)).
  { apply toCents_nonneg. qlra. }
  assert (HP : 0 <= (if Qclt_le_dec
                          (downPayment inputs / loanAmount inputs * ofZ 100)
                          (ofZ 20)
                     then calculatePMI (loanAmount inputs - downPayment inputs)
                            (pmiRateOrDefault inputs)
                     else 0)).
  { destruct (Qclt_le_dec _ _); [|apply Qcle_refl].
    rewrite calculatePMI_toCents. apply toCents_nonneg.
    assert (H : 0 <= (loanAmount inputs - downPayment inputs)
                     * pmiRateOrDefault inputs).
    { apply Qcmult_nonneg; [qlra|assumption]. }
    assert (He : (loanAmount inputs - downPayment inputs)
                 * (pmiRateOrDefault inputs / ofZ 100) / ofZ 12
                 = (loanAmount inputs - downPayment inputs)
                   * pmiRateOrDefault inputs / ofZ 100 / ofZ 12).
    { unfold Qcdiv. ring. }
    rewrite He.
    set (x := (loanAmount inputs - downPayment inputs)
              * pmiRateOrDefault inputs) in *. clearbody x. qlra. }
  split; [exact HM|]. split; [exact HT|]. split; [exact HI|].
  split; [exact HP|].
  set (a := calculateMonthlyPayment _ _ _) in *.
  set (b := calculateMonthlyPropertyTax _) in *.
  set (c := calculateMonthlyInsurance _) in *.
  set (d := if Qclt_le_dec _ _ then _ else _) in *.
  clearbody a b c d. qlra.
Qed.



End MortgageResultsFacts.

(* ================================================================= *)
(** ** The expense store: payments on a card *)

Section ExpensePayments.

Import ExpenseStore StoreSamples.


Lemma Math_min_pos (a b : number) : 0 < Math_min a b <-> 0 < a /\ 0 < b.
Proof.
  unfold Math_min. destruct (Qclt_le_dec b a) as [Hba|Hba]; split.
  - intros H. split; qlra.
  - intros [Ha Hb]. exact Hb.
  - intros H. split; qlra.
  - intros [Ha Hb]. exact Ha.
Qed.

(** X19.  [makePayment] returns false exactly when no card has the id, the
    amount is not positive, the card's balance is not positive, or the
    amount does not exceed the month's interest on the balance; and then
    the cards are left as they were. *)
Theorem makePayment_refused (now : Date) (creditCards : list StoredCard)
    (cardId : string) (amount : number) :
  (fst (makePayment now creditCards cardId amount) = false <->
   match findCard creditCards cardId with
   | None => True
   | Some c =>
       amount <= 0 \/ balance (card c) <= 0
       \/ amount <= calculateMonthlyInterest (balance (card c))
                      (Credit.interestRate (card c))
   end)
  /\ (fst (makePayment now creditCards cardId amount) = false ->
      snd (makePayment now creditCards cardId amount) = creditCards).
Proof.
  unfold makePayment. destruct (findCard creditCards cardId) as [c|].
  - cbv zeta. destruct (Qclt_le_dec 0 amount) as [Ha|Ha].
    + destruct (Qclt_le_dec 0 _) as [Hp|Hp]; cbn [fst snd].
      * apply Math_min_pos in Hp. destruct Hp as [Hp1 Hp2].
        split; [|discriminate]. split; [discriminate|].
        intros [H|[H|H]]; exfalso; qlra.
      * split; [|reflexivity]. split; [|reflexivity]. intros _.
        destruct (Qclt_le_dec 0 (balance (card c))) as [Hb|Hb];
          [|right; left; exact Hb].
        right; right.
        destruct (Qclt_le_dec
                    (calculateMonthlyInterest (balance (card c))
                       (Credit.interestRate (card c))) amount) as [Hi|Hi];
          [|exact Hi].
        exfalso.
        set (interest := calculateMonthlyInterest _ _) in *.
        assert (Hd : 0 < amount - interest) by qlra.
        apply (Qclt_not_le _ _ (proj2 (Math_min_pos _ _) (conj Hd Hb))).
        exact Hp.
    + cbn [fst snd]. split; [|reflexivity]. split; [|reflexivity].
      intros _. left. exact Ha.
  - cbn [fst snd]. split; [|reflexivity]. split; reflexivity || trivial.
Qed.


End ExpensePayments.

Section ExpensePaymentsWitness.

Import ExpenseStore StoreSamples.

Lemma makePayment_refused_witness :
  snd (makePayment (mkDate 2024 0 15) wallet "visa" (ofZ 15)) = wallet.
Proof.
  apply (proj2 (makePayment_refused (mkDate 2024 0 15) wallet "visa" (ofZ 15))).
  vm_compute. reflexivity.
Defined.


End ExpensePaymentsWitness.

(* ================================================================= *)
(** ** The mortgage store: ratios and the PMI flag *)

Section MortgageStoreFacts.

Import MortgageStore StoreSamples.

(** X21.  For a positive price and a down payment from 0 to the price, the
    loan-to-value ratio and the down payment percentage of the store add
    up to 100, and [needsPMI] tells on which side of 80 the loan-to-value
    ratio is (each within [slack]: the two ratios are separate double
    quotients).  For a price that is not positive both ratios are 0 and
    [needsPMI] holds. *)
Theorem loanToValueRatio_complement (inputs : MortgageInputs) :
  (0 < loanAmount inputs ->
   0 <= downPayment inputs -> downPayment inputs <= loanAmount inputs ->
   absDiff (loanToValueRatio inputs + downPaymentPercentage inputs) (ofZ 100)
   <= slack
   /\ (needsPMI inputs = true -> ofZ 80 - slack <= loanToValueRatio inputs)
   /\ (needsPMI inputs = false -> loanToValueRatio inputs <= ofZ 80 + slack))
  /\ (loanAmount inputs <= 0 ->
      loanToValueRatio inputs = 0 /\ downPaymentPercentage inputs = 0
      /\ needsPMI inputs = true).
Proof.
  split.
  - intros Hl _ _.
    assert (Hsum : loanToValueRatio inputs + downPaymentPercentage inputs
                   = ofZ 100).
    { unfold loanToValueRatio, downPaymentPercentage.
      destruct (Qclt_le_dec 0 (loanAmount inputs)) as [_|H]; [|exfalso; qlra].
      assert (Hne : loanAmount inputs <> 0) by (intros E; rewrite E in Hl; qlra).
      field. exact Hne. }
    unfold needsPMI.
    set (ltv := loanToValueRatio inputs) in *.
    set (dp := downPaymentPercentage inputs) in *. clearbody ltv dp.
    unfold slack. split; [apply absDiff_le; qlra|].
    destruct (Qclt_le_dec dp (ofZ 20)) as [H|H]; split; intros H';
      try discriminate; qlra.
  - intros Hl. unfold needsPMI, loanToValueRatio, downPaymentPercentage.
    destruct (Qclt_le_dec 0 (loanAmount inputs)) as [H|_]; [exfalso; qlra|].
    split; [reflexivity|]. split; [reflexivity|].
    destruct (Qclt_le_dec 0 (ofZ 20)) as [_|H]; [reflexivity|exfalso; qlra].
Qed.

Lemma loanToValueRatio_complement_witness :
  absDiff (loanToValueRatio defaultInputs + downPaymentPercentage defaultInputs)
    (ofZ 100) <= slack
  /\ needsPMI (mkMortgageInputs 0 0 (dec 45 10) 30 0 0 None) = true.
Proof.
  split.
  - apply (proj1 (loanToValueRatio_complement defaultInputs)); qc_eval.
  - apply (proj2 (loanToValueRatio_complement
                    (mkMortgageInputs 0 0 (dec 45 10) 30 0 0 None))).
    qc_eval.
Defined.

(** X22.  For a positive price the store's [needsPMI] flag agrees with
    [calculateMortgage]: with the flag the monthly PMI is [calculatePMI] of
    the amount borrowed at the PMI rate given (0 when none is), without it
    the monthly PMI is 0. *)
Theorem needsPMI_calculateMortgage (inputs : MortgageInputs) :
  0 < loanAmount inputs ->
  monthlyPMI (calculateMortgage inputs)
  = if needsPMI inputs
    then calculatePMI (loanAmount inputs - downPayment inputs)
           (pmiRateOrDefault inputs)
    else 0.
Proof.
  intros Hl. unfold calculateMortgage, needsPMI, downPaymentPercentage.
  cbn [monthlyPMI]. fold (pmiRateOrDefault inputs).
  destruct (Qclt_le_dec 0 (loanAmount inputs)) as [_|H]; [|exfalso; qlra].
  destruct (Qclt_le_dec _ _); reflexivity.
Qed.

Lemma needsPMI_calculateMortgage_witness :
  monthlyPMI (calculateMortgage tinyLoan)
  = if needsPMI tinyLoan
    then calculatePMI (loanAmount tinyLoan - downPayment tinyLoan)
           (pmiRateOrDefault tinyLoan)
    else 0.
Proof.
  apply needsPMI_calculateMortgage. qc_eval.
Defined.

End MortgageStoreFacts.

(* ================================================================= *)
(** ** validation.ts and the store's [calculateResults] *)

Section ValidationFacts.

Import Validation MortgageStore StoreSamples.

Variable toLocaleString : Z -> string.

Lemma ofZ_le_iff (a b : Z) : ofZ a <= ofZ b <-> (a <= b)%Z.
Proof. unfold Qcle. rewrite !this_ofZ, <- Zle_Qle. reflexivity. Qed.

Lemma requiredOutside_false (x : option number) (min max : number) :
  0 < min ->
  (requiredOutside x min max = false
   <-> exists v, x = Some v /\ min <= v /\ v <= max).
Proof.
  intros Hmin. unfold requiredOutside. destruct x as [v|].
  - split.
    + intros H. exists v. split; [reflexivity|].
      destruct (Qc_eq_dec v 0) as [E|E], (Qclt_le_dec v min) as [H1|H1],
        (Qclt_le_dec max v) as [H2|H2]; cbn [orb] in H; try discriminate.
      split; assumption.
    + intros (w & Hw & H1 & H2). injection Hw as Hw. subst w.
      destruct (Qc_eq_dec v 0) as [E|E]; [exfalso; rewrite E in H1; qlra|].
      destruct (Qclt_le_dec v min) as [H3|H3]; [exfalso; qlra|].
      destruct (Qclt_le_dec max v) as [H4|H4]; [exfalso; qlra|].
      reflexivity.
  - split; [discriminate|]. intros (w & Hw & _). discriminate.
Qed.

Lemma optionalOutside_false (x : option number) (min max : number) :
  optionalOutside x min max = false
  <-> forall v, x = Some v -> min <= v /\ v <= max.
Proof.
  unfold optionalOutside. destruct x as [v|].
  - split.
    + intros H w Hw. injection Hw as Hw. subst w.
      destruct (Qclt_le_dec v min) as [H1|H1], (Qclt_le_dec max v) as [H2|H2];
        cbn [orb] in H; try discriminate.
      split; assumption.
    + intros H. destruct (H v eq_refl) as [H1 H2].
      destruct (Qclt_le_dec v min) as [H3|H3]; [exfalso; qlra|].
      destruct (Qclt_le_dec max v) as [H4|H4]; [exfalso; qlra|].
      reflexivity.
  - split; [|reflexivity]. intros _ v Hv. discriminate.
Qed.

Lemma pushIf_app_nil (bad : bool) (e : ValidationError)
    (l : list ValidationError) :
  pushIf bad e ++ l = [] <-> bad = false /\ l = [].
Proof.
  destruct bad; cbn [pushIf app]; split.
  - discriminate.
  - intros [H _]. discriminate.
  - intros H. split; [reflexivity|exact H].
  - intros [_ H]. exact H.
Qed.

Lemma pushIf_nil (bad : bool) (e : ValidationError) :
  pushIf bad e = [] <-> bad = false.
Proof. destruct bad; cbn [pushIf]; split; try discriminate; reflexivity. Qed.

Lemma errors_nil (inputs : PartialMortgageInputs) :
  errors (validateMortgageInputs toLocaleString inputs) = []
  <-> requiredOutside (loanAmount' inputs) (ofZ 1000) (ofZ 10000000) = false
      /\ optionalOutside (downPayment' inputs) 0 (ofZ 5000000) = false
      /\ requiredOutside (interestRate' inputs) (dec 1 100) (ofZ 30) = false
      /\ requiredOutside (option_map ofZ (loanTermYears' inputs))
           (ofZ 1) (ofZ 50) = false
      /\ optionalOutside (propertyTax' inputs) 0 (ofZ 100000) = false
      /\ optionalOutside (homeInsurance' inputs) 0 (ofZ 50000) = false
      /\ optionalOutside (pmiRate' inputs) 0 (ofZ 5) = false.
Proof.
  unfold validateMortgageInputs. cbn [errors].
  rewrite !pushIf_app_nil, pushIf_nil. reflexivity.
Qed.

Lemma isValid_errors (inputs : PartialMortgageInputs) :
  isValid (validateMortgageInputs toLocaleString inputs) = true
  <-> errors (validateMortgageInputs toLocaleString inputs) = [].
Proof.
  unfold validateMortgageInputs. cbn [isValid errors].
  rewrite Nat.eqb_eq. apply length_zero_iff_nil.
Qed.

(** X23.  [validateMortgageInputs] reports a valid form exactly when it
    lists no error, and exactly when the loan amount is present and from
    1000 to 10000000, the interest rate present and from 0.01 to 30, the
    term present and from 1 to 50 years, and each of the down payment
    (0 to 5000000), the property tax (0 to 100000), the home insurance
    (0 to 50000) and the PMI rate (0 to 5) is absent or in its range. *)
Theorem validateMortgageInputs_valid (inputs : PartialMortgageInputs) :
  let validation := validateMortgageInputs toLocaleString inputs in
  (isValid validation = true <-> errors validation = [])
  /\ (isValid validation = true <->
      (exists a, loanAmount' inputs = Some a
                 /\ ofZ 1000 <= a /\ a <= ofZ 10000000)
      /\ (forall d, downPayment' inputs = Some d ->
                    0 <= d /\ d <= ofZ 5000000)
      /\ (exists r, interestRate' inputs = Some r
                    /\ dec 1 100 <= r /\ r <= ofZ 30)
      /\ (exists t, loanTermYears' inputs = Some t /\ (1 <= t <= 50)%Z)
      /\ (forall p, propertyTax' inputs = Some p ->
                    0 <= p /\ p <= ofZ 100000)
      /\ (forall h, homeInsurance' inputs = Some h ->
                    0 <= h /\ h <= ofZ 50000)
      /\ (forall p, pmiRate' inputs = Some p -> 0 <= p /\ p <= ofZ 5)).
Proof.
  cbv zeta. split; [apply isValid_errors|].
  rewrite isValid_errors, errors_nil.
  rewrite !optionalOutside_false.
  rewrite !requiredOutside_false by qc_eval.
  assert (Ht : (exists v, option_map ofZ (loanTermYears' inputs) = Some v
                          /\ ofZ 1 <= v /\ v <= ofZ 50)
               <-> exists t, loanTermYears' inputs = Some t
                             /\ (1 <= t <= 50)%Z).
  { destruct (loanTermYears' inputs) as [t|]; cbn [option_map]; split.
    - intros (v & Hv & H1 & H2). injection Hv as <-.
      exists t. split; [reflexivity|]. split; apply ofZ_le_iff; assumption.
    - intros (t' & Ht' & H1 & H2). injection Ht' as <-.
      exists (ofZ t). split; [reflexivity|]. split; apply ofZ_le_iff; assumption.
    - intros (v & Hv & _). discriminate.
    - intros (t' & Ht' & _). discriminate. }
  rewrite Ht. reflexivity.
Qed.

(** X24.  The store's [calculateResults] returns false and leaves no
    results when the current inputs are not valid.  When it returns true
    the results are those of [calculateMortgage], and for a down payment
    not above the price the monthly payment, tax, insurance and PMI are
    not negative and the total monthly payment is at least the monthly
    payment. *)
Theorem calculateResults_outcome (inputs : MortgageInputs) :
  let outcome := calculateResults toLocaleString inputs in
  (fst outcome = false -> snd outcome = None)
  /\ (fst outcome = true ->
      snd outcome = Some (calculateMortgage inputs)
      /\ (downPayment inputs <= loanAmount inputs ->
          0 <= monthlyPayment (calculateMortgage inputs)
          /\ 0 <= monthlyTax (calculateMortgage inputs)
          /\ 0 <= monthlyInsurance (calculateMortgage inputs)
          /\ 0 <= monthlyPMI (calculateMortgage inputs)
          /\ monthlyPayment (calculateMortgage inputs)
             <= totalMonthlyPayment (calculateMortgage inputs))).
Proof.
  cbv zeta. unfold calculateResults, isValidInputs.
  destruct (isValid _) eqn:Hv; cbn [fst snd].
  - split; [discriminate|]. intros _. split; [reflexivity|]. intros Hd.
    apply isValid_errors, errors_nil in Hv.
    destruct Hv as (H1 & H2 & H3 & H4 & H5 & H6 & H7).
    cbn [asPartial loanAmount' downPayment' interestRate' loanTermYears'
         propertyTax' homeInsurance' pmiRate' option_map] in *.
    apply requiredOutside_false in H1; [|qc_eval].
    apply requiredOutside_false in H3; [|qc_eval].
    apply requiredOutside_false in H4; [|qc_eval].
    rewrite optionalOutside_false in H2, H5, H6, H7.
    destruct H1 as (a & Ha & Ha1 & _). injection Ha as <-.
    destruct H3 as (r & Hr & Hr1 & _). injection Hr as <-.
    destruct H4 as (t & Ht & Ht1 & _). injection Ht as <-.
    destruct (H2 _ eq_refl) as [Hd0 _].
    destruct (H5 _ eq_refl) as [Htax _].
    destruct (H6 _ eq_refl) as [Hins _].
    apply calculateMortgage_nonneg.
    + qlra.
    + exact Hd0.
    + exact Hd.
    + qlra.
    + apply (proj1 (ofZ_le_iff _ _)) in Ht1. lia.
    + exact Htax.
    + exact Hins.
    + unfold pmiRateOrDefault. destruct (pmiRate inputs) as [p|].
      * exact (proj1 (H7 p eq_refl)).
      * apply Qcle_refl.
  - split; [reflexivity|discriminate].
Qed.

End ValidationFacts.

Section ValidationWitness.

Import Validation MortgageStore StoreSamples.

Lemma validateMortgageInputs_valid_witness :
  isValid (validateMortgageInputs noLocale (asPartial defaultInputs)) = true.
Proof.
  pose proof (validateMortgageInputs_valid noLocale (asPartial defaultInputs))
    as H.
  cbv zeta in H. apply (proj2 (proj2 H)).
  cbn [asPartial defaultInputs loanAmount' downPayment' interestRate'
       loanTermYears' propertyTax' homeInsurance' pmiRate'
       loanAmount downPayment Mortgage.interestRate loanTermYears
       propertyTax homeInsurance pmiRate].
  split; [eexists; split; [reflexivity|split; qc_eval]|].
  split; [intros d Hd; injection Hd as <-; split; qc_eval|].
  split; [eexists; split; [reflexivity|split; qc_eval]|].
  split; [eexists; split; [reflexivity|lia]|].
  split; [intros d Hd; injection Hd as <-; split; qc_eval|].
  split; [intros d Hd; injection Hd as <-; split; qc_eval|].
  intros d Hd; injection Hd as <-; split; qc_eval.
Defined.

Lemma calculateResults_outcome_witness :
  snd (calculateResults noLocale defaultInputs)
  = Some (calculateMortgage defaultInputs)
  /\ snd (calculateResults noLocale
            (mkMortgageInputs 0 0 (dec 45 10) 30 0 0 None)) = None.
Proof.
  pose proof (calculateResults_outcome noLocale defaultInputs) as H1.
  pose proof (calculateResults_outcome noLocale
                (mkMortgageInputs 0 0 (dec 45 10) 30 0 0 None)) as H2.
  cbv zeta in H1, H2. destruct H1 as [_ H1]. destruct H2 as [H2 _].
  split.
  - refine (proj1 (H1 _)).
    unfold calculateResults.
    assert (Hv : isValidInputs noLocale defaultInputs = true)
      by (vm_compute; reflexivity).
    rewrite Hv. reflexivity.
  - apply H2.
    unfold calculateResults.
    assert (Hv : isValidInputs noLocale
                   (mkMortgageInputs 0 0 (dec 45 10) 30 0 0 None) = false)
      by (vm_compute; reflexivity).
    rewrite Hv. reflexivity.
Defined.

End ValidationWitness.

(* ================================================================= *)
(** ** currency.ts: rounding and conversion *)

Section CurrencyFacts.

Import Currency.

Lemma Qcmult_pos (a b : number) : 0 < a -> 0 < b -> 0 < a * b.
Proof.
  intros Ha Hb. pose proof (Qcmult_lt_compat_r 0 a b Hb Ha) as H.
  assert (E : 0 * b = 0) by ring. rewrite E in H. exact H.
Qed.

Lemma Qcinv_pos (p : number) : 0 < p -> 0 < / p.
Proof.
  intros H. unfold Qclt in *. rewrite this_inv.
  apply Qinv_lt_0_compat. exact H.
Qed.

Lemma Qcpower_pos (b : number) (n : nat) : 0 < b -> 0 < Qcpower b n.
Proof.
  intros Hb. induction n as [|n IH]; cbn [Qcpower]; [qc_eval|].
  apply Qcmult_pos; assumption.
Qed.

Lemma Math_pow_pos (b : number) (e : Z) : 0 < b -> 0 < Math_pow b e.
Proof.
  intros Hb. unfold Math_pow. destruct e as [|p|p].
  - qc_eval.
  - apply Qcpower_pos; exact Hb.
  - apply Qcinv_pos, Qcpower_pos. exact Hb.
Qed.

Lemma roundCurrency_2 (amount : number) : roundCurrency amount 2 = toCents amount.
Proof.
  unfold roundCurrency, toCents.
  assert (H : Math_pow (ofZ 10) 2 = ofZ 100) by qc_eval.
  rewrite H. reflexivity.
Qed.

(** X25.  For [decimals] that is not negative, [roundCurrency] returns a
    whole number of units of 10^(-decimals) within half such a unit of the
    amount (and [slack]: at a half unit the double product can fall on
    either side), and leaves an amount it has rounded unchanged. *)
Theorem roundCurrency_precision (amount : number) (decimals : Z) :
  (0 <= decimals)%Z ->
  let scale := Math_pow (ofZ 10) decimals in
  let rounded := roundCurrency amount decimals in
  (exists k : Z, rounded = ofZ k / scale)
  /\ absDiff rounded amount <= dec 1 2 / scale + slack
  /\ roundCurrency rounded decimals = rounded.
Proof.
  intros _. cbv zeta. unfold roundCurrency.
  assert (Hp : 0 < Math_pow (ofZ 10) decimals) by (apply Math_pow_pos; qc_eval).
  set (p := Math_pow (ofZ 10) decimals) in *. clearbody p.
  assert (Hne : p <> 0) by (intros E; rewrite E in Hp; qlra).
  destruct (Math_round_bounds (amount * p)) as [Hlo Hhi].
  assert (Hi : 0 < / p) by (apply Qcinv_pos; exact Hp).
  assert (Hpi : p * / p = 1) by (apply Qcmult_inv_r; exact Hne).
  split; [|split].
  - unfold Math_round. eexists. reflexivity.
  - unfold Qcdiv. set (R := Math_round (amount * p)) in *. clearbody R.
    assert (H1 : 0 < (R - (amount * p - dec 1 2)) * / p).
    { apply Qcmult_pos; [qlra|exact Hi]. }
    assert (He1 : (R - (amount * p - dec 1 2)) * / p
                  = R * / p - (amount * (p * / p) - dec 1 2 * / p)) by ring.
    rewrite He1, Hpi in H1.
    assert (H2 : 0 <= (amount * p + dec 1 2 - R) * / p).
    { apply Qcmult_nonneg; [qlra|apply Qclt_le_weak; exact Hi]. }
    assert (He2 : (amount * p + dec 1 2 - R) * / p
                  = amount * (p * / p) + dec 1 2 * / p - R * / p) by ring.
    rewrite He2, Hpi in H2.
    set (ip := / p) in *. set (x := R * ip) in *. set (h := dec 1 2 * ip) in *.
    clearbody ip x h. unfold slack. apply absDiff_le; qlra.
  - assert (He : Math_round (amount * p) / p * p = Math_round (amount * p)).
    { field. exact Hne. }
    rewrite He.
    assert (Hk : exists k, Math_round (amount * p) = ofZ k)
      by (unfold Math_round; eexists; reflexivity).
    destruct Hk as [k Hk]. rewrite Hk, Math_round_ofZ. reflexivity.
Qed.

Lemma roundCurrency_precision_witness :
  roundCurrency (roundCurrency (dec 1005 1000) 2) 2
  = roundCurrency (dec 1005 1000) 2.
Proof.
  assert (Hd : (0 <= 2)%Z) by lia.
  pose proof (roundCurrency_precision (dec 1005 1000) 2 Hd) as H.
  cbv zeta in H. exact (proj2 (proj2 H)).
Defined.

(** X26.  [convertCurrency] returns the amount as it is, not rounded, when
    the two currencies are the same.  Otherwise the result is a whole
    number of cents: the amount times the rate given, rounded, when that
    rate is not 0; a rate of 0 is ignored like an absent one; and without
    a rate a pair that does not involve USD is converted one for one. *)
Theorem convertCurrency_rates (amount : number) (fromCurrency toCurrency : Currency)
    (exchangeRate : option number) :
  convertCurrency amount fromCurrency fromCurrency exchangeRate = amount
  /\ (fromCurrency <> toCurrency ->
      wholeCents (convertCurrency amount fromCurrency toCurrency exchangeRate)
      /\ (forall rate, exchangeRate = Some rate -> rate <> 0 ->
            convertCurrency amount fromCurrency toCurrency exchangeRate
            = roundCurrency (amount * rate) 2)
      /\ (fromCurrency <> USD -> toCurrency <> USD ->
            convertCurrency amount fromCurrency toCurrency None
            = roundCurrency amount 2))
  /\ convertCurrency amount fromCurrency toCurrency (Some 0)
     = convertCurrency amount fromCurrency toCurrency None.
Proof.
  split; [|split].
  - unfold convertCurrency. destruct fromCurrency; reflexivity.
  - intros Hne. unfold convertCurrency.
    assert (Hb : Currency_eqb fromCurrency toCurrency = false).
    { destruct fromCurrency, toCurrency; try reflexivity; contradiction. }
    rewrite Hb. cbv zeta. split; [|split].
    + rewrite roundCurrency_2. apply toCents_wholeCents.
    + intros rate -> Hr. unfold orElse at 1.
      destruct (Qc_eq_dec rate 0) as [E|_]; [contradiction|reflexivity].
    + intros Hf Ht.
      assert (Hm : mockExchangeRates fromCurrency toCurrency = None).
      { destruct fromCurrency, toCurrency; try reflexivity; contradiction. }
      rewrite Hm. cbn [orElse].
      assert (H1 : amount * 1 = amount) by ring. rewrite H1. reflexivity.
  - unfold convertCurrency. destruct (Currency_eqb _ _); [reflexivity|].
    cbv zeta. unfold orElse at 1.
    destruct (Qc_eq_dec 0 0) as [_|E]; [reflexivity|contradiction E; reflexivity].
Qed.

Lemma convertCurrency_rates_witness :
  wholeCents (convertCurrency (dec 1999 100) USD EUR None)
  /\ convertCurrency (dec 12345 1000) EUR GBP None
     = roundCurrency (dec 12345 1000) 2.
Proof.
  pose proof (convertCurrency_rates (dec 1999 100) USD EUR None) as H1.
  pose proof (convertCurrency_rates (dec 12345 1000) EUR GBP None) as H2.
  destruct H1 as (_ & H1 & _). destruct H2 as (_ & H2 & _).
  split.
  - apply H1. discriminate.
  - apply H2; discriminate.
Defined.

End CurrencyFacts.
